(** * bos-web-engine: the container's serialization layer

    A shallow embedding of
    - [serialize.ts] in its stand-alone form ([encodeJsonString],
      [decodeJsonString], [serializeProps], [serializeArgs],
      [deserializeProps], [serializeNode] exported one by one), and
    - [composeSerializationMethods], which closes the same operations over
      one container context,
    followed by the properties of component identities, callback keys, the
    whitespace escaping and the prop codec.

    JavaScript values are a first-order data type; strings are sequences of
    UTF-16 code units; objects are association lists in insertion order;
    the container's [CallbackMap] and [RequestMap] are finite maps; effects
    (mutation of the maps, pushes on a [childComponents] array, console
    output, [throw]) are threaded through a state-and-exception monad. *)

From stdpp Require Import base numbers option list strings pretty gmap.

(** ** Strings *)

(** A JavaScript string: its UTF-16 code units. *)
Abbreviation jsstring := (list N).

(** An ASCII literal as a JavaScript string. *)
Definition js (s : string) : jsstring :=
  (fun a => Ascii.N_of_ascii a) <$> String.list_ascii_of_string s.

(** [parts.join(sep)] on strings. *)
Fixpoint join (sep : jsstring) (parts : list jsstring) : jsstring :=
  match parts with
  | [] => []
  | [p] => p
  | p :: rest => p ++ sep ++ join sep rest
  end.

(** [s.replace(/c/g, d)] for single code units [c] and [d]. *)
Definition replace_unit (c d : N) (s : jsstring) : jsstring :=
  (fun x => if (x =? c)%N then d else x) <$> s.

Definition LF : N := 10.
Definition TAB : N := 9.
(** U+2063 INVISIBLE SEPARATOR and U+2064 INVISIBLE PLUS, the two code units
    that stand for a newline and a tab in transit. *)
Definition INVISIBLE_SEPARATOR : N := 0x2063.
Definition INVISIBLE_PLUS : N := 0x2064.

(** serialize.ts, [encodeJsonString]. *)
Definition encodeJsonString (value : jsstring) : jsstring :=
  match value with
  | [] => value
  | _ => replace_unit TAB INVISIBLE_PLUS (replace_unit LF INVISIBLE_SEPARATOR value)
  end.

(** serialize.ts, [decodeJsonString]. *)
Definition decodeJsonString (value : jsstring) : jsstring :=
  match value with
  | [] => value
  | _ => replace_unit INVISIBLE_PLUS TAB (replace_unit INVISIBLE_SEPARATOR LF value)
  end.

(** [s.replace(/\\n/g, '')]: the pattern is a backslash followed by the
    letter n, and every occurrence of those two code units is dropped. *)
Fixpoint strip_backslash_n (s : jsstring) : jsstring :=
  match s with
  | c :: rest =>
      match rest with
      | d :: rest' =>
          if ((c =? 92) && (d =? 110))%N then strip_backslash_n rest'
          else c :: strip_backslash_n rest
      | [] => [c]
      end
  | [] => []
  end.

(** ** Values *)

(** A function as the serializer sees it: its [name], its source text
    ([toString()]) and its identity as an object ([fn_ref]): two closures
    made from the same source text have equal text and different identity. *)
Record func := Func { fn_name : jsstring; fn_body : jsstring; fn_ref : N }.

#[warnings="-register-all"]
Inductive value :=
| VUndefined
| VNull
| VBool (b : bool)
| VNum (n : Z)
| VStr (s : jsstring)
| VFun (f : func)
(** the arrow function that [deserializeProps] builds for one callback; it
    closes over [parentContainerId], [componentId] and [__componentMethod] *)
| VInvoker (parentContainerId : option jsstring) (componentId : jsstring)
    (method : value)
(** [requests[requestId].promise] *)
| VPromise (requestId : jsstring)
(** a [childComponents] array, shared by reference: index into the store *)
| VAcc (a : nat)
| VArr (l : list value)
| VObj (o : list (jsstring * value)).

Abbreviation object := (list (jsstring * value)).

Inductive jstype :=
  TUndefined | TObject | TBoolean | TNumber | TString | TFunction.

Definition typeof (v : value) : jstype :=
  match v with
  | VUndefined => TUndefined
  | VNull => TObject
  | VBool _ => TBoolean
  | VNum _ => TNumber
  | VStr _ => TString
  | VFun _ | VInvoker _ _ _ => TFunction
  | VPromise _ | VAcc _ | VArr _ | VObj _ => TObject
  end.

Definition is_function (v : value) : bool :=
  match typeof v with TFunction => true | _ => false end.

Definition is_object (v : value) : bool :=
  match typeof v with TObject => true | _ => false end.

(** ToBoolean: what [!v], [v || w] and [v ? a : b] test. *)
Definition truthy (v : value) : bool :=
  match v with
  | VUndefined | VNull => false
  | VBool b => b
  | VNum n => negb (n =? 0)%Z
  | VStr s => match s with [] => false | _ => true end
  | _ => true
  end.

Definition nullish (v : value) : bool :=
  match v with VUndefined | VNull => true | _ => false end.

(** *** Objects: own enumerable properties in insertion order *)

Fixpoint obj_lookup (o : object) (k : jsstring) : option value :=
  match o with
  | [] => None
  | (k', v) :: rest => if decide (k' = k) then Some v else obj_lookup rest k
  end.

(** [o[k]]: [undefined] when absent. *)
Definition obj_get (o : object) (k : jsstring) : value :=
  default VUndefined (obj_lookup o k).

(** [k in o]. *)
Definition obj_has (o : object) (k : jsstring) : bool :=
  bool_decide (is_Some (obj_lookup o k)).

(** [o[k] = v]: in place when [k] is present, appended otherwise. *)
Fixpoint obj_set (o : object) (k : jsstring) (v : value) : object :=
  match o with
  | [] => [(k, v)]
  | (k', v') :: rest =>
      if decide (k' = k) then (k, v) :: rest else (k', v') :: obj_set rest k v
  end.

(** [delete o[k]]. *)
Definition obj_delete (o : object) (k : jsstring) : object :=
  filter (fun kv => kv.1 <> k) o.

(** [{...a, ...b}]. *)
Definition obj_spread (a b : object) : object :=
  foldl (fun acc kv => obj_set acc kv.1 kv.2) a b.

(** [v.k] and [v?.k] on a value that is not [null] or [undefined]. Named
    properties of arrays, functions and promises are outside the model. *)
Definition get (v : value) (k : jsstring) : value :=
  match v with VObj o => obj_get o k | _ => VUndefined end.

Definition has (v : value) (k : jsstring) : bool :=
  match v with VObj o => obj_has o k | _ => false end.

(** The source text of the arrow function of [deserializeProps], as
    [Function.prototype.toString] gives it. All invokers share it. *)
Definition invoker_source : jsstring := js "(...args) => { ... }".

Definition fn_text (v : value) : jsstring :=
  match v with
  | VFun f => fn_body f
  | VInvoker _ _ _ => invoker_source
  | _ => []
  end.

(** [type.name]. An arrow function stored with a computed key has no name. *)
Definition fn_name_of (v : value) : jsstring :=
  match v with VFun f => fn_name f | _ => [] end.

(** [String(v)], as [Array.prototype.join] and template literals apply it.
    The text of a live [childComponents] array needs the store and is
    outside the model; it is given as the text of an empty array. *)
Fixpoint to_string (v : value) : jsstring :=
  match v with
  | VUndefined => js "undefined"
  | VNull => js "null"
  | VBool b => if b then js "true" else js "false"
  | VNum n => js (pretty n)
  | VStr s => s
  | VFun _ | VInvoker _ _ _ => fn_text v
  | VPromise _ => js "[object Promise]"
  | VAcc _ => []
  | VArr l =>
      join (js ",")
        ((fix each (l : list value) : list jsstring :=
            match l with
            | [] => []
            | x :: rest =>
                (match x with
                 | VUndefined | VNull => []
                 | _ => to_string x
                 end) :: each rest
            end) l)
  | VObj _ => js "[object Object]"
  end.

(** One element of [array.join(sep)]: [null] and [undefined] give the empty
    string. *)
Definition join_element (v : value) : jsstring :=
  if nullish v then [] else to_string v.

(** [v?.toString()]. *)
Definition opt_toString (v : value) : value :=
  if nullish v then VUndefined else VStr (to_string v).

(** [string | undefined] and [string | null] as values. *)
Definition of_option (o : option jsstring) : value :=
  match o with Some s => VStr s | None => VUndefined end.

(** ** Component identity *)

(** [buildComponentId]; its text is the same in both files. The interface
    declares [instanceId : string | undefined] and [componentPath : string];
    the values come from a [Props] object, so they are taken as they are. *)
Definition buildComponentId (instanceId componentPath : value)
    (parentComponentId : jsstring) : jsstring :=
  join (js "##")
    [join_element componentPath;
     join_element (opt_toString instanceId);
     parentComponentId].

(** ** The container context and its effects *)

Inductive error :=
| Error (message : jsstring)
| TypeError.

(** types.ts, [CallbackRequest]. *)
Record CallbackRequest := {
  promise : value;
  rejecter : value;
  resolver : value }.

(** types.ts, [PostMessageComponentCallbackInvocationParams]; [callbacks]
    and [serializeArgs] are references to the context and are not repeated. *)
Record PostMessageComponentCallbackInvocationParams := {
  pm_args : list value;
  pm_componentId : jsstring;
  pm_method : value;
  pm_requestId : jsstring;
  pm_targetId : jsstring }.

Inductive event :=
| console_error (message : jsstring)
| console_warn (message : jsstring)
(** [console.warn(message, { error, componentProps })] *)
| console_warn_with (message : jsstring) (e : error) (componentProps : value).

(** What one container owns and mutates: its [CallbackMap], its
    [RequestMap], the [childComponents] arrays alive during serialization
    ([VAcc a] is [arrays !! a]), and what it wrote to the console. *)
Record context := Context {
  callbacks : gmap jsstring value;
  requests : gmap jsstring CallbackRequest;
  arrays : list (list value);
  console : list event }.

Definition set_callbacks (f : gmap jsstring value -> gmap jsstring value)
    (st : context) : context :=
  Context (f (callbacks st)) (requests st) (arrays st) (console st).

Definition set_requests
    (f : gmap jsstring CallbackRequest -> gmap jsstring CallbackRequest)
    (st : context) : context :=
  Context (callbacks st) (f (requests st)) (arrays st) (console st).

Definition set_arrays (f : list (list value) -> list (list value))
    (st : context) : context :=
  Context (callbacks st) (requests st) (f (arrays st)) (console st).

Definition log (e : event) (st : context) : context :=
  Context (callbacks st) (requests st) (arrays st) (console st ++ [e]).

(** How a computation ends: it returns, it throws, or the recursion budget
    of the model is used up. *)
Inductive outcome (A : Type) :=
| Ok (a : A)
| Throw (e : error)
| OutOfFuel.
Arguments Ok {A} a.
Arguments Throw {A} e.
Arguments OutOfFuel {A}.

(** Mutations made before a [throw] stay. *)
Definition M (A : Type) : Type := context -> outcome A * context.

Definition ret {A} (a : A) : M A := fun st => (Ok a, st).

Definition bind {A B} (m : M A) (k : A -> M B) : M B :=
  fun st =>
    match m st with
    | (Ok a, st') => k a st'
    | (Throw e, st') => (Throw e, st')
    | (OutOfFuel, st') => (OutOfFuel, st')
    end.

Definition throw {A} (e : error) : M A := fun st => (Throw e, st).

Definition out_of_fuel {A} : M A := fun st => (OutOfFuel, st).

Definition update (f : context -> context) : M unit := fun st => (Ok tt, f st).

Definition read {A} (f : context -> A) : M A := fun st => (Ok (f st), st).

(** [try { m } catch (e) { h e }]. *)
Definition try_catch {A} (m : M A) (h : error -> M A) : M A :=
  fun st =>
    match m st with
    | (Throw e, st') => h e st'
    | r => r
    end.

Notation "'let*' x ':=' m 'in' k" := (bind m (fun x => k))
  (at level 10, x name, m at level 100, k at level 200).

(** [xs.map(f)] with an effectful [f], left to right. *)
Fixpoint mapM {A B} (f : A -> M B) (xs : list A) : M (list B) :=
  match xs with
  | [] => ret []
  | x :: rest =>
      let* y := f x in
      let* ys := mapM f rest in
      ret (y :: ys)
  end.

(** [xs.reduce(f, init)] with an effectful [f]. *)
Fixpoint foldM {A B} (f : B -> A -> M B) (init : B) (xs : list A) : M B :=
  match xs with
  | [] => ret init
  | x :: rest => let* b := f init x in foldM f b rest
  end.

(** [childComponents.push(v)] on the array at index [a]. *)
Definition push (a : nat) (v : value) : M unit :=
  update (set_arrays (alter (fun l => l ++ [v]) a)).

(** A fresh array literal [[]] that will be pushed on. *)
Definition new_array : M nat :=
  fun st => (Ok (length (arrays st)), set_arrays (fun h => h ++ [[]]) st).

(** [callbacks[fnKey] = fn]. *)
Definition register (fnKey : jsstring) (fn : value) : M unit :=
  update (set_callbacks (insert fnKey fn)).

(** The elements of [v] when [Array.isArray(v)]. *)
Definition elements (h : list (list value)) (v : value)
  : option (list value) :=
  match v with
  | VArr l => Some l
  | VAcc a => Some (default [] (h !! a))
  | _ => None
  end.

Definition index_entries (l : list value) : object :=
  imap (fun i v => (js (pretty i), v)) l.

(** The own enumerable string-keyed properties of [v], as [Object.entries]
    and object spread see them; [null], [undefined], numbers, booleans and
    functions have none. Keys that are array indices are assumed not to
    occur among the named keys of an object (the engine would list them
    first). *)
Definition own_entries (h : list (list value)) (v : value) : object :=
  match v with
  | VObj o => o
  | VArr l => index_entries l
  | VAcc a => index_entries (default [] (h !! a))
  | VStr s => index_entries ((fun c => VStr [c]) <$> s)
  | _ => []
  end.

(** [Object.entries(v)]. *)
Definition Object_entries (v : value) : M object :=
  if nullish v then throw TypeError
  else read (fun st => own_entries (arrays st) v).

(** [{ ...v }]: a shallow copy has the entries of [v]. *)
Definition spread (v : value) : M object :=
  read (fun st => own_entries (arrays st) v).

(** [xs.flat()]: one level. *)
Definition flat (h : list (list value)) (xs : list value) : list value :=
  concat ((fun x => default [x] (elements h x)) <$> xs).

(** ** Call arguments *)

(** [serializeArgs]; its text is the same in both files. [fuel] bounds the
    nesting depth of the arguments. *)
Fixpoint serializeArgs (fuel : nat) (args : list value)
    (componentId : jsstring) : M (list value) :=
  match fuel with
  | 0 => out_of_fuel
  | S fuel' =>
      mapM (fun arg =>
        if negb (truthy arg) then ret arg
        else
          let* h := read arrays in
          match elements h arg with
          | Some l =>
              let* r := serializeArgs fuel' l componentId in
              ret (VArr r)
          | None =>
              if is_object arg then
                let argKeys := (own_entries h arg).*1 in
                let* values :=
                  serializeArgs fuel' (own_entries h arg).*2 componentId in
                ret (VObj (obj_spread [] (zip argKeys values)))
              else if negb (is_function arg) then ret arg
              else
                let callbackBody := strip_backslash_n (fn_text arg) in
                let fnKey := callbackBody ++ js "::" ++ componentId in
                let* _ := register fnKey arg in
                ret (VObj [(js "__componentMethod", VStr fnKey)])
          end) args
  end.

(** ** Props on the receiving side *)

(** What the invoker calls out to. [window.crypto.randomUUID],
    [buildRequest] and [postCallbackInvocationMessage] are collaborators of
    this code; any behaviour of theirs is allowed. *)
Record Collaborators := {
  randomUUID : M jsstring;
  buildRequest : M CallbackRequest;
  postCallbackInvocationMessage :
    PostMessageComponentCallbackInvocationParams -> M unit }.

(** The body of the arrow function [(...args) => { ... }] that
    [deserializeProps] stores under [methodName]. *)
Definition invoke (E : Collaborators) (parentContainerId : option jsstring)
    (componentId : jsstring) (method : value) (args : list value) : M value :=
  if negb (truthy (of_option parentContainerId)) then
    let* _ :=
      update (log (console_error
                     (js "Root Component cannot invoke method on parent"))) in
    ret VUndefined
  else
    let* requestId := randomUUID E in
    let* request := buildRequest E in
    let* _ := update (set_requests (insert requestId request)) in
    let* _ :=
      postCallbackInvocationMessage E
        {| pm_args := args;
           pm_componentId := componentId;
           pm_method := method;
           pm_requestId := requestId;
           pm_targetId := default [] parentContainerId |} in
    let* r := read (fun st => requests st !! requestId) in
    match r with
    | Some request => ret (promise request)
    | None => throw TypeError
    end.

(** Calling a function value that [deserializeProps] produced. *)
Definition call_invoker (E : Collaborators) (fn : value) (args : list value)
  : M value :=
  match fn with
  | VInvoker parentContainerId componentId method =>
      invoke E parentContainerId componentId method args
  | _ => throw TypeError
  end.

Definition duplicate_props_key (methodName componentId : jsstring) : error :=
  Error (js "'duplicate props key " ++ methodName ++ js " on " ++ componentId
         ++ js "'").

(** The reducer of [deserializeProps]:
    [(componentCallbacks, [methodName, { __componentMethod }]) => ...]. *)
Definition deserialize_entry (parentContainerId : option jsstring)
    (componentId : jsstring) (props : value) (componentCallbacks : object)
    (entry : jsstring * value) : M object :=
  if nullish entry.2 then throw TypeError
  else if truthy (get props entry.1) then
    throw (duplicate_props_key entry.1 componentId)
  else
    ret (obj_set componentCallbacks entry.1
           (VInvoker parentContainerId componentId
              (get entry.2 (js "__componentMethod")))).

(** [deserializeProps]. In serialize.ts [parentContainerId] is a parameter;
    in [composeSerializationMethods] it is the one of the enclosing context.
    The rest of the text is the same. *)
Definition deserializeProps (parentContainerId : option jsstring)
    (componentId : jsstring) (props : value) : M value :=
  if nullish props then throw TypeError
  else
    let __componentcallbacks := get props (js "__componentcallbacks") in
    let* copy := spread props in
    let componentProps := obj_delete copy (js "__componentcallbacks") in
    let* entries :=
      Object_entries
        (if truthy __componentcallbacks then __componentcallbacks
         else VObj []) in
    let* componentCallbacks :=
      foldM (deserialize_entry parentContainerId componentId props)
        [] entries in
    ret (VObj (obj_spread componentProps componentCallbacks)).

(** ** Pieces shared by the two serializers *)

(** [if (!newProps[family]) newProps[family] = {};
     newProps[family][key] = marker;]
    A module is strict code: the assignment throws when [newProps[family]]
    is a truthy primitive. On an array or a function it adds a named
    property, which the model does not show. *)
Definition add_marker (newProps : object) (family key : jsstring)
    (marker : value) : M object :=
  let current := obj_get newProps family in
  if negb (truthy current) then
    ret (obj_set newProps family (VObj [(key, marker)]))
  else
    match current with
    | VObj o => ret (obj_set newProps family (VObj (obj_set o key marker)))
    | VBool _ | VNum _ | VStr _ => throw TypeError
    | _ => ret newProps
    end.

(** [[key, componentId || value.toString().replace(/\\n/g, ''),
      parentId].join('::')] *)
Definition fnKey_of (key : jsstring) (componentId : option jsstring)
    (fn : value) (parentId : jsstring) : jsstring :=
  join (js "::")
    [key;
     if truthy (of_option componentId) then default [] componentId
     else strip_backslash_n (fn_text fn);
     parentId].

(** The function branch of the reducer of [serializeProps]. *)
Definition serialize_callback (componentId : option jsstring)
    (parentId : jsstring) (newProps : object) (key : jsstring) (fn : value)
  : M object :=
  let fnKey := fnKey_of key componentId fn parentId in
  let* _ := register fnKey fn in
  if truthy (of_option componentId) then
    add_marker newProps (js "__componentcallbacks") key
      (VObj [(js "__componentMethod", VStr fnKey);
             (js "parentId", VStr parentId)])
  else
    add_marker newProps (js "__domcallbacks") key
      (VObj [(js "__componentMethod", VStr fnKey)]).

(** The test [isComponent] of [serializeProps]: the value looks like a
    rendered Preact node. *)
Definition is_vnode (v : value) : bool :=
  truthy (get v (js "props")) && is_object v
  && has v (js "__") && has v (js "__k").

(** [value?.__bweMeta?.isProxy || false]. *)
Definition is_proxy (v : value) : bool :=
  truthy (get (get v (js "__bweMeta")) (js "isProxy")).

(** The children of a node that carry a [childComponents] key hand their
    entries to the accumulator:
    [unifiedChildren.filter(...).forEach((child) =>
       child.childComponents.forEach((c) => childComponents.push(c)))].
    [forEach] visits the elements present when it starts. *)
Definition merge_bubbled (unifiedChildren : value) (childComponents : nat)
  : M unit :=
  let* h := read arrays in
  foldM (fun (_ : unit) (child : value) =>
    if truthy child && is_object child && has child (js "childComponents")
    then
      let* h := read arrays in
      match elements h (get child (js "childComponents")) with
      | Some l =>
          foldM (fun (_ : unit) c => push childComponents c) tt l
      | None => throw TypeError
      end
    else ret tt) tt (default [] (elements h unifiedChildren)).

(** The host element that stands for a nested Component. *)
Definition placeholder (componentId : jsstring) : value :=
  VObj [(js "type", VStr (js "div"));
        (js "props",
          VObj [(js "id", VStr (js "dom-" ++ componentId));
                (js "__bweMeta",
                  VObj [(js "componentId", VStr componentId)]);
                (js "className", VStr (js "container-child"))])].

(** [children = node?.props?.children || []], [props = { ...node.props }]
    without [children], and
    [unifiedChildren = Array.isArray(children) ? children : [children]]. *)
Definition children_of (node : value) : value :=
  let c := get (get node (js "props")) (js "children") in
  if truthy c then c else VArr [].

Definition unify (h : list (list value)) (children : value) : value :=
  match elements h children with
  | Some _ => children
  | None => VArr [children]
  end.

Definition props_of (node : value) : M object :=
  let* copy := spread (get node (js "props")) in
  ret (obj_delete copy (js "children")).

(** ** composeSerializationMethods *)

Module Composed.

(** types.ts, [ComposeSerializationMethodsParams]; [callbacks] and
    [requests] are the maps of the [context]. *)
Record ComposeSerializationMethodsParams := {
  collaborators : Collaborators;
  isComponent : value -> bool;
  isWidget : value -> bool;
  parentContainerId : option jsstring }.

Section composeSerializationMethods.

Context (P : ComposeSerializationMethodsParams).

Definition serializeProps_with
    (serializeNode : value -> nat -> jsstring -> M value)
    (componentId : option jsstring) (parentId : jsstring) (props : value)
  : M value :=
  let* entries := Object_entries props in
  let* newProps :=
    foldM (fun (newProps : object) (entry : jsstring * value) =>
      let key := entry.1 in
      let value := entry.2 in
      let isComponent := is_vnode value in
      let isFunction := is_function value in
      let isProxy := is_proxy value in
      if negb isFunction then
        let* serializedValue :=
          if isComponent then
            let* childComponents := new_array in
            serializeNode value childComponents parentId
          else if isProxy then
            let* copy := spread value in ret (VObj copy)
          else ret value in
        ret (obj_set newProps key serializedValue)
      else serialize_callback componentId parentId newProps key value)
      [] entries in
  ret (VObj newProps).

Definition serializeChildComponent_with
    (serializeProps : option jsstring -> jsstring -> value -> M value)
    (parentId : jsstring) (props : object) : M (value * value) :=
  let instanceId := obj_get props (js "id") in
  let src := obj_get props (js "src") in
  let componentProps := obj_get props (js "props") in
  let trust := obj_get props (js "trust") in
  let componentId := buildComponentId instanceId src parentId in
  let* child :=
    try_catch
      (let* p :=
         if truthy componentProps then
           serializeProps (Some componentId) parentId componentProps
         else ret (VObj []) in
       ret (VObj [(js "trust", trust);
                  (js "props", p);
                  (js "source", src);
                  (js "componentId", VStr componentId)]))
      (fun error =>
         let* _ :=
           update (log (console_warn_with
                          (js "failed to dispatch component load for "
                           ++ parentId) error componentProps)) in
         ret VUndefined) in
  ret (child, placeholder componentId).

Definition widget_deprecated : jsstring :=
  js "<Widget /> will be deprecated in upcoming versions of BOS Web Engine. Please update your code to reference <Component /> instead.".

Fixpoint serializeNode (fuel : nat) (node : value) (childComponents : nat)
    (parentId : jsstring) {struct fuel} : M value :=
  match fuel with
  | 0 => out_of_fuel
  | S fuel' =>
      if negb (truthy node) || negb (is_object node) then ret node
      else
        let type := get node (js "type") in
        let serializedElementType :=
          match type with VStr s => s | _ => [] end in
        let children := children_of node in
        let* props := props_of node in
        let* h := read arrays in
        let unifiedChildren := unify h children in
        let* _ := merge_bubbled unifiedChildren childComponents in
        if is_function type then
          if negb (isWidget P type) && negb (isComponent P type) then
            throw (Error (js "unrecognized Component function "
                          ++ fn_name_of type))
          else
            let* _ :=
              if isWidget P type then
                update (log (console_warn widget_deprecated))
              else ret tt in
            let* r :=
              serializeChildComponent_with
                (serializeProps_with (serializeNode fuel'))
                parentId props in
            let* _ :=
              if truthy r.1 then push childComponents r.1 else ret tt in
            ret r.2
        else
          let* serialized :=
            serializeProps_with (serializeNode fuel') None parentId
              (VObj props) in
          let* own := spread serialized in
          let* h := read arrays in
          let* kids :=
            mapM (fun c =>
              if truthy (get c (js "props")) then
                serializeNode fuel' c childComponents parentId
              else ret c)
              (flat h (default [] (elements h unifiedChildren))) in
          ret (VObj [(js "type", VStr serializedElementType);
                     (js "props",
                       VObj (obj_set own (js "children") (VArr kids)));
                     (js "childComponents", VAcc childComponents)])
  end.

Definition serializeProps (fuel : nat) :=
  serializeProps_with (serializeNode fuel).

Definition serializeChildComponent (fuel : nat) :=
  serializeChildComponent_with (serializeProps fuel).

Definition deserializeProps (componentId : jsstring) (props : value)
  : M value :=
  deserializeProps (parentContainerId P) componentId props.

End composeSerializationMethods.

End Composed.

(** ** serialize.ts, the stand-alone serializer *)

Module Standalone.

(** What [serializeNode] and [serializeProps] receive besides the node, the
    accumulator and the ids. [call fn arg] is the call [fn(arg)] of a
    function value (a builtin, or a component function that renders its
    tree); its result is whatever that function returns or throws. *)
Record SerializeParams := {
  builtinComponents : value;
  decodeJsonStringParam : jsstring -> jsstring;
  preactRootComponentName : jsstring;
  call : value -> value -> M value }.

Section serialize.

Context (P : SerializeParams).

Definition serializeProps_with
    (serializeNode : value -> nat -> jsstring -> M value)
    (componentId : option jsstring) (parentId : jsstring) (props : value)
  : M value :=
  let* entries := Object_entries props in
  let* newProps :=
    foldM (fun (newProps : object) (entry : jsstring * value) =>
      let key := entry.1 in
      let value := entry.2 in
      let isComponent := is_vnode value in
      let isFunction := is_function value in
      let isProxy := is_proxy value in
      if negb isFunction then
        let* serializedValue :=
          if isComponent then
            let* childComponents := new_array in
            serializeNode value childComponents parentId
          else
            match value with
            | VStr s => ret (VStr (decodeJsonStringParam P s))
            | _ =>
                if isProxy then
                  let* copy := spread value in ret (VObj copy)
                else ret value
            end in
        ret (obj_set newProps key serializedValue)
      else serialize_callback componentId parentId newProps key value)
      [] entries in
  ret (VObj newProps).

(** The props a pass-through function is called with:
    [{ ...props, __bweMeta: { ...props?.__bweMeta, componentId },
       id: 'dom-' + componentId }]. *)
Definition passthrough_props (h : list (list value)) (props : object)
    (componentId : jsstring) : value :=
  VObj
    (obj_set
       (obj_set props (js "__bweMeta")
          (VObj (obj_set (own_entries h (obj_get props (js "__bweMeta")))
                   (js "componentId") (VStr componentId))))
       (js "id") (VStr (js "dom-" ++ componentId))).

Fixpoint serializeNode (fuel : nat) (node : value) (childComponents : nat)
    (parentId : jsstring) {struct fuel} : M value :=
  match fuel with
  | 0 => out_of_fuel
  | S fuel' =>
      if negb (truthy node) || negb (is_object node) then ret node
      else
        let type := get node (js "type") in
        let serializedElementType :=
          match type with VStr s => type | _ => VStr [] end in
        let children := children_of node in
        let* props := props_of node in
        let* h := read arrays in
        let unifiedChildren := unify h children in
        let* _ := merge_bubbled unifiedChildren childComponents in
        let serializedElementType :=
          if negb (truthy type) then VStr (js "div")
          else serializedElementType in
        (* the last statement of the function: the host element *)
        let host (serializedElementType props unifiedChildren : value) :=
          let* serialized :=
            serializeProps_with (serializeNode fuel') None parentId props in
          let* own := spread serialized in
          let* h := read arrays in
          match elements h unifiedChildren with
          | None => throw TypeError
          | Some l =>
              let* kids :=
                mapM (fun c =>
                  if truthy (get c (js "props")) then
                    serializeNode fuel' c childComponents parentId
                  else ret c)
                  (flat h l) in
              ret (VObj [(js "type", serializedElementType);
                         (js "props",
                           VObj (obj_set own (js "children") (VArr kids)));
                         (js "childComponents", VAcc childComponents)])
          end in
        if is_function type then
          let component := fn_name_of type in
          if decide (component = preactRootComponentName P) then
            host (VStr (js "div")) (VObj props) unifiedChildren
          else if truthy (get (builtinComponents P) component) then
            let builtin := get (builtinComponents P) component in
            let* r :=
              call P builtin
                (VObj [(js "children", unifiedChildren);
                       (js "props", VObj props)]) in
            if nullish r then throw TypeError
            else
              let props := get r (js "props") in
              let serializedElementType := get r (js "type") in
              if nullish props then throw TypeError
              else
                let unifiedChildren :=
                  if truthy (get props (js "children")) then
                    get props (js "children")
                  else VArr [] in
                host serializedElementType props unifiedChildren
          else if decide (component = js "Widget") then
            let instanceId := obj_get props (js "id") in
            let src := obj_get props (js "src") in
            let componentProps := obj_get props (js "props") in
            let trust := obj_get props (js "trust") in
            let componentId := buildComponentId instanceId src parentId in
            let* _ :=
              try_catch
                (let* p :=
                   if truthy componentProps then
                     serializeProps_with (serializeNode fuel')
                       (Some componentId) parentId componentProps
                   else ret (VObj []) in
                 push childComponents
                   (VObj [(js "trust", trust);
                          (js "props", p);
                          (js "source", src);
                          (js "componentId", VStr componentId)]))
                (fun error =>
                   update (log (console_warn_with
                                  (js "failed to dispatch component load for "
                                   ++ parentId) error componentProps))) in
            ret (placeholder componentId)
          else
            let componentId :=
              buildComponentId (obj_get props (js "id"))
                (obj_get props (js "src")) parentId in
            let* h := read arrays in
            let* rendered :=
              call P type (passthrough_props h props componentId) in
            serializeNode fuel' rendered childComponents componentId
        else host serializedElementType (VObj props) unifiedChildren
  end.

Definition serializeProps (fuel : nat) :=
  serializeProps_with (serializeNode fuel).

End serialize.

End Standalone.

(** ** Notions used in the statements *)

Definition HASH : N := 35.

(** Every [#] of [s] is followed by a code unit other than [#]: [s] has no
    [##] inside and does not end in [#]. *)
Fixpoint sep_free (s : jsstring) : bool :=
  match s with
  | [] => true
  | c :: rest =>
      if (c =? HASH)%N then
        match rest with
        | [] => false
        | d :: _ => negb (d =? HASH)%N && sep_free rest
        end
      else sep_free rest
  end.

(** The text before and after the first [##] of [s]. *)
Fixpoint split_sep (s : jsstring) : option (jsstring * jsstring) :=
  match s with
  | c :: rest =>
      match rest with
      | d :: rest' =>
          if ((c =? HASH) && (d =? HASH))%N then Some ([], rest')
          else (fun p => (c :: p.1, p.2)) <$> split_sep rest
      | [] => None
      end
  | [] => None
  end.

(** ** Sample data *)

Definition sample_uuid : jsstring := js "7b0c2f5e-1c1d-4e0a-9b55-0a6f3c2d9e41".

(** Collaborators that answer with one request id and a promise for it, and
    a post that delivers nothing. *)
Definition sample_collaborators : Collaborators :=
  {| randomUUID := ret sample_uuid;
     buildRequest :=
       ret {| promise := VPromise sample_uuid;
              rejecter := VUndefined;
              resolver := VUndefined |};
     postCallbackInvocationMessage := fun _ => ret tt |}.

(** A container that has registered nothing, with one empty
    [childComponents] array, index 0. *)
Definition empty_context : context := Context ∅ ∅ [[]] [].

Definition root_error : event :=
  console_error (js "Root Component cannot invoke method on parent").

Definition marker_for (fnKey parentId : jsstring) : value :=
  VObj [(js "__componentMethod", VStr fnKey); (js "parentId", VStr parentId)].

(** Props as a parent sends them: one value prop and one callback. *)
Definition sample_props : value :=
  VObj [(js "title", VStr (js "hello"));
        (js "__componentcallbacks",
          VObj [(js "onSave", marker_for (js "onSave::c##x##p::p") (js "p"))])].

(** Props in which the name [onSave] is a value prop (with the value [0])
    and a callback. *)
Definition clashing_props : value :=
  VObj [(js "onSave", VNum 0);
        (js "__componentcallbacks",
          VObj [(js "onSave", marker_for (js "onSave::c##x##p::p") (js "p"))])].

(** The same clash on a value prop that holds the empty string. *)
Definition clashing_label_props : value :=
  VObj [(js "label", VStr []);
        (js "__domcallbacks",
          VObj [(js "onClick",
                  VObj [(js "__componentMethod", VStr (js "onClick::f::p"))])]);
        (js "__componentcallbacks",
          VObj [(js "label", marker_for (js "label::c##x##p::p") (js "p"))])].

(** ** Props without rendered nodes *)

Definition COMPONENT_CALLBACKS : jsstring := js "__componentcallbacks".
Definition DOM_CALLBACKS : jsstring := js "__domcallbacks".

(** Props that hold no rendered node and do not use the two marker names as
    prop names: what a component passes when none of its props is a piece
    of rendered tree. *)
Definition plain_props (o : object) : Prop :=
  Forall (fun e : jsstring * value =>
            is_vnode e.2 = false
            /\ e.1 <> COMPONENT_CALLBACKS /\ e.1 <> DOM_CALLBACKS) o.

(** The marker family and the marker of a function-valued prop. *)
Definition family_of (componentId : option jsstring) : jsstring :=
  if truthy (of_option componentId) then COMPONENT_CALLBACKS else DOM_CALLBACKS.

Definition marker_of (componentId : option jsstring) (fnKey parentId : jsstring)
  : value :=
  if truthy (of_option componentId) then
    VObj [(js "__componentMethod", VStr fnKey); (js "parentId", VStr parentId)]
  else VObj [(js "__componentMethod", VStr fnKey)].

(** [decode] applied to a value when it is a string. *)
Definition on_string (decode : jsstring -> jsstring) (v : value) : value :=
  match v with VStr s => VStr (decode s) | _ => v end.

(** What one entry of plain props adds to [newProps]; [decode] is what is
    applied to string values. *)
Definition plain_step (decode : jsstring -> jsstring)
    (componentId : option jsstring) (parentId : jsstring) (newProps : object)
    (entry : jsstring * value) : object :=
  if is_function entry.2 then
    let marker :=
      marker_of componentId
        (fnKey_of entry.1 componentId entry.2 parentId) parentId in
    match obj_get newProps (family_of componentId) with
    | VObj o =>
        obj_set newProps (family_of componentId)
          (VObj (obj_set o entry.1 marker))
    | _ => obj_set newProps (family_of componentId) (VObj [(entry.1, marker)])
    end
  else
    obj_set newProps entry.1 (on_string decode entry.2).

Definition plain_result (decode : jsstring -> jsstring)
    (componentId : option jsstring) (parentId : jsstring) (o : object)
  : object :=
  foldl (plain_step decode componentId parentId) [] o.

(** The CallbackMap after the function-valued entries of [o] have been
    registered, first to last. *)
Definition registered (componentId : option jsstring) (parentId : jsstring)
    (o : object) (cb : gmap jsstring value) : gmap jsstring value :=
  foldl (fun cb (e : jsstring * value) =>
           if is_function e.2 then
             <[fnKey_of e.1 componentId e.2 parentId := e.2]> cb
           else cb) cb o.

(** The marker slots of [newProps] are absent or hold an object. *)
Definition slots_ok (newProps : object) : Prop :=
  forall family, family = COMPONENT_CALLBACKS \/ family = DOM_CALLBACKS ->
    match obj_get newProps family with
    | VUndefined | VObj _ => True
    | _ => False
    end.

(** A Standalone parameter record that decodes with [decode] and has no
    builtins; calling a function value is a [TypeError]. *)
Definition standalone_params (decode : jsstring -> jsstring)
  : Standalone.SerializeParams :=
  {| Standalone.builtinComponents := VObj [];
     Standalone.decodeJsonStringParam := decode;
     Standalone.preactRootComponentName := js "Fragment";
     Standalone.call := fun _ _ => throw TypeError |}.



(** Sample capability checks: by the function's name. *)
Definition named (name : jsstring) (v : value) : bool :=
  match v with VFun f => bool_decide (fn_name f = name) | _ => false end.

Definition sample_params : Composed.ComposeSerializationMethodsParams :=
  {| Composed.collaborators := sample_collaborators;
     Composed.isComponent := named (js "Component");
     Composed.isWidget := named (js "Widget");
     Composed.parentContainerId := Some (js "p") |}.


(** ** Call arguments without nesting *)


(** [callbackBody + '::' + componentId] *)
Definition arg_fnKey (componentId : jsstring) (fn : value) : jsstring :=
  strip_backslash_n (fn_text fn) ++ js "::" ++ componentId.



(** ** Sample trees *)

(** The fields that Preact gives a node besides [type] and [props]. *)
Definition preact_fields : object :=
  [(js "key", VUndefined); (js "ref", VUndefined);
   (js "__k", VNull); (js "__", VNull)].

(** A rendered node as Preact makes it. *)
Definition rendered (type : value) (props : object) : value :=
  VObj ((js "type", type) :: (js "props", VObj props) :: preact_fields).

(** A rendered node with [props.children]: the one child itself, or the
    array of the children when there are several. *)
Definition element_with (type : value) (props : object) (children : value)
  : value :=
  rendered type ((js "children", children) :: props).

Definition element (type : value) (props : object) (children : list value)
  : value :=
  element_with type props (VArr children).

(** Two closures made from the same arrow function text. *)
Definition save_handler : value := VFun (Func [] (js "() => act()") 1).



(** A wrapper component [Card] that renders a [section] around its title,
    and the parameters of a container whose only callable function it is. *)
Definition Card : value := VFun (Func (js "Card") (js "function Card(props) { ... }") 3).

Definition render_card (fn arg : value) : M value :=
  if named (js "Card") fn then
    ret (element (VStr (js "section")) [(js "id", get arg (js "id"))]
           [get arg (js "title")])
  else throw TypeError.

Definition card_params : Standalone.SerializeParams :=
  {| Standalone.builtinComponents := VObj [];
     Standalone.decodeJsonStringParam := decodeJsonString;
     Standalone.preactRootComponentName := js "Fragment";
     Standalone.call := render_card |}.

Definition card_node : value :=
  element Card [(js "title", VStr (js "hello"))] [].


(** ** What a computation may do to the arrays *)

(** From [st] to [st'] the arrays alive in [st] are kept as they are, but
    for the one at index [a] (when given); new arrays may appear. *)
Definition frame_except (a : option nat) (st st' : context) : Prop :=
  length (arrays st) <= length (arrays st')
  /\ forall i, i < length (arrays st) -> Some i <> a ->
       arrays st' !! i = arrays st !! i.

(** [m] touches no array alive at its start but the one at [a], however it
    ends. *)
Definition frames {A} (a : option nat) (m : M A) : Prop :=
  forall st r st', m st = (r, st') -> frame_except a st st'.


Definition Component : value :=
  VFun (Func (js "Component") (js "function Component() {}") 4).

Definition Widget : value :=
  VFun (Func (js "Widget") (js "function Widget() {}") 5).

(** [<Component src="a.near/widget/Bad" id="b" props={{ icon: <Card /> }} />]:
    its [icon] prop is a rendered node of a function that no check accepts,
    so serializing its props throws. *)
Definition bad_component (marker : value) : value :=
  element marker
    [(js "src", VStr (js "a.near/widget/Bad")); (js "id", VStr (js "b"));
     (js "props", VObj [(js "icon", rendered Card [(js "size", VNum 1)])])]
    [].

Definition good_component (marker : value) : value :=
  element marker
    [(js "src", VStr (js "a.near/widget/Good")); (js "id", VStr (js "g"));
     (js "props", VObj [(js "title", VStr (js "hi"))])]
    [].

Definition bad_then_good (marker : value) : value :=
  element (VStr (js "div")) [] [bad_component marker; good_component marker].

(** Stand-alone parameters in which calling a function value throws. *)
Definition strict_params : Standalone.SerializeParams :=
  standalone_params decodeJsonString.

Definition dispatch_failed (parentId : jsstring) : jsstring :=
  js "failed to dispatch component load for " ++ parentId.


(** ** Rendered trees *)

(** A tree as a component renders it: leaves (text and other primitive
    children), host elements with their attributes and children, and nested
    components ([<Component ... />], [<Widget ... />]) with their props. *)
#[warnings="-register-all"]
Inductive tree :=
| Leaf (v : value)
(** a host element with several children: [props.children] is an array *)
| Host (tag : jsstring) (attrs : object) (kids : list tree)
(** a host element with one child: [props.children] is the child *)
| HostOne (tag : jsstring) (attrs : object) (kid : tree)
| Nested (marker : value) (props : object).

(** The Preact node of a tree. *)
Fixpoint vnode (t : tree) : value :=
  match t with
  | Leaf v => v
  | Host tag attrs kids => element (VStr tag) attrs (vnode <$> kids)
  | HostOne tag attrs kid => element_with (VStr tag) attrs (vnode kid)
  | Nested marker props => rendered marker props
  end.


(** Host elements above the deepest node. *)
Fixpoint height (t : tree) : nat :=
  match t with
  | Leaf _ | Nested _ _ => 0
  | Host _ _ kids => S (max_list (height <$> kids))
  | HostOne _ _ kid => S (height kid)
  end.

Definition is_leaf (v : value) : bool :=
  match v with
  | VUndefined | VNull | VBool _ | VNum _ | VStr _ => true
  | _ => false
  end.

(** No child carries a [childComponents] key: nothing bubbles up. *)
Definition quiet (children : value) : Prop :=
  match children with
  | VArr l => Forall (fun c => has c (js "childComponents") = false) l
  | VAcc _ => False
  | c => has c (js "childComponents") = false
  end.

(** The [props] prop of a nested component is absent (or falsy), or an
    object of plain props. *)
Definition component_props_ok (componentProps : value) : Prop :=
  truthy componentProps = false
  \/ exists o, componentProps = VObj o /\ plain_props o.

(** Trees whose host attributes and component props hold no rendered node,
    and whose markers are functions that [isWidget] or [isComponent]
    accepts. *)
#[warnings="-register-all"]
Inductive well_formed (Q : Composed.ComposeSerializationMethodsParams)
  : tree -> Prop :=
| wf_leaf v : is_leaf v = true -> well_formed Q (Leaf v)
| wf_host tag attrs kids :
    plain_props attrs -> Forall (well_formed Q) kids ->
    well_formed Q (Host tag attrs kids)
| wf_host_one tag attrs kid :
    plain_props attrs -> well_formed Q kid ->
    well_formed Q (HostOne tag attrs kid)
| wf_nested marker props :
    is_function marker = true ->
    Composed.isWidget Q marker || Composed.isComponent Q marker = true ->
    quiet (children_of (vnode (Nested marker props))) ->
    component_props_ok (obj_get props (js "props")) ->
    well_formed Q (Nested marker props).

(** The id of a nested component with the props [props] under [parentId]. *)
Definition component_id (parentId : jsstring) (props : object) : jsstring :=
  buildComponentId (obj_get props (js "id")) (obj_get props (js "src"))
    parentId.

(** The [ChildComponentMetadata] of a nested component with plain props. *)
Definition child_entry (parentId : jsstring) (props : object) : value :=
  VObj [(js "trust", obj_get props (js "trust"));
        (js "props",
          match obj_get props (js "props") with
          | VObj o =>
              VObj (plain_result (fun s => s)
                      (Some (component_id parentId props)) parentId o)
          | _ => VObj []
          end);
        (js "source", obj_get props (js "src"));
        (js "componentId", VStr (component_id parentId props))].

(** The entries of the markers of a tree, in document order. *)
Fixpoint entries_of (parentId : jsstring) (t : tree) : list value :=
  match t with
  | Leaf _ => []
  | Host _ _ kids => concat (entries_of parentId <$> kids)
  | HostOne _ _ kid => entries_of parentId kid
  | Nested _ props => [child_entry parentId props]
  end.





(** [<div class="list"><p>hello</p><Component src="a/Child" id="x"
      props={{ onSave }} /><Widget src="a/Other" /></div>] *)
Definition sample_tree : tree :=
  Host (js "div") [(js "class", VStr (js "list"))]
    [HostOne (js "p") [] (Leaf (VStr (js "hello")));
     Nested Component
       [(js "src", VStr (js "a/Child")); (js "id", VStr (js "x"));
        (js "props", VObj [(js "onSave", save_handler)])];
     Nested Widget [(js "src", VStr (js "a/Other"))]].


(** ** The markers of serialized props *)

(** What one entry adds to the marker object of [serializeProps]. *)
Definition marker_step (componentId : option jsstring) (parentId : jsstring)
    (m : object) (e : jsstring * value) : object :=
  if is_function e.2 then
    obj_set m e.1
      (marker_of componentId (fnKey_of e.1 componentId e.2 parentId) parentId)
  else m.

(** The marker object that [serializeProps] builds from the function-valued
    entries of [o]: prop name to marker, in the order of the entries. *)
Definition markers_of (componentId : option jsstring) (parentId : jsstring)
    (o : object) : object :=
  foldl (marker_step componentId parentId) [] o.

(** The marker slot of [newProps] is absent or an object, and what it
    holds. *)
Definition slot_shape (componentId : option jsstring) (newProps : object)
  : Prop :=
  obj_lookup newProps (family_of componentId) = None
  \/ exists m, obj_lookup newProps (family_of componentId) = Some (VObj m).

Definition slot (componentId : option jsstring) (newProps : object) : object :=
  match obj_get newProps (family_of componentId) with
  | VObj m => m
  | _ => []
  end.

(** The other marker family. *)
Definition other_family (componentId : option jsstring) : jsstring :=
  if truthy (of_option componentId) then DOM_CALLBACKS else COMPONENT_CALLBACKS.


(** ** What a computation may do to the state *)

(** [m] relates the state it starts in to the state it ends in by [R],
    however it ends. *)
Definition keeps {A} (R : context -> context -> Prop) (m : M A) : Prop :=
  forall st r st', m st = (r, st') -> R st st'.

(** From [st] to [st']: the RequestMap is the same, the console and the
    arrays have only been appended to, no key of the CallbackMap is gone, and
    every value stored in it meanwhile is a function. *)
Definition only_adds (st st' : context) : Prop :=
  requests st' = requests st
  /\ (exists more, console st' = console st ++ more)
  /\ (forall i l, arrays st !! i = Some l ->
        exists more, arrays st' !! i = Some (l ++ more))
  /\ (forall k, is_Some (callbacks st !! k) -> is_Some (callbacks st' !! k))
  /\ (forall k v, callbacks st' !! k = Some v ->
        callbacks st !! k = Some v \/ is_function v = true).

(** The same for call arguments: nothing but the CallbackMap changes, and
    what is stored is a function under its text and [componentId]. *)
Definition only_registers_args (componentId : jsstring) (st st' : context)
  : Prop :=
  requests st' = requests st
  /\ arrays st' = arrays st
  /\ console st' = console st
  /\ (forall k, is_Some (callbacks st !! k) -> is_Some (callbacks st' !! k))
  /\ (forall k v, callbacks st' !! k = Some v ->
        callbacks st !! k = Some v
        \/ (is_function v = true /\ k = arg_fnKey componentId v)).


(** No reference to the store at any depth of arrays and objects. *)
Fixpoint ref_free (v : value) : bool :=
  match v with
  | VAcc _ => false
  | VArr l => forallb ref_free l
  | VObj o => forallb (fun e => ref_free e.2) o
  | _ => true
  end.

(** How deep the arrays and objects of a value nest; a promise counts as
    an object without entries. *)
Fixpoint nesting (v : value) : nat :=
  match v with
  | VArr l => S (foldr (fun x n => Nat.max (nesting x) n) 0 l)
  | VObj o => S (foldr (fun e n => Nat.max (nesting e.2) n) 0 o)
  | VPromise _ => 1
  | _ => 0
  end.


(** ** The serialized form of a tree *)

(** The host element that [serializeNode] returns for a host element with
    the attributes [attrs] and the serialized children [kids]. *)
Definition host_element (a : nat) (parentId tag : jsstring) (attrs : object)
    (kids : list value) : value :=
  VObj [(js "type", VStr tag);
        (js "props",
          VObj (obj_set
                  (plain_result (fun s => s) None parentId
                     (obj_delete attrs (js "children")))
                  (js "children") (VArr kids)));
        (js "childComponents", VAcc a)].

(** A tree with every nested component replaced by its placeholder; [a] is
    the accumulator that every element refers to. *)
Fixpoint serialized (a : nat) (parentId : jsstring) (t : tree) : value :=
  match t with
  | Leaf v => v
  | Host tag attrs kids =>
      host_element a parentId tag attrs (serialized a parentId <$> kids)
  | HostOne tag attrs kid =>
      host_element a parentId tag attrs
        (if truthy (vnode kid) then [serialized a parentId kid] else [])
  | Nested _ props => placeholder (component_id parentId props)
  end.

(** With the budget [fuel], [serializeNode] returns the serialized form of
    every well-formed tree that is lower than [fuel], and appends the
    entries of its markers to the accumulator. *)
Definition exact_on (Q : Composed.ComposeSerializationMethodsParams)
    (fuel a : nat) (pid : jsstring) : Prop :=
  forall t st l,
    well_formed Q t -> height t < fuel -> arrays st !! a = Some l ->
    exists st',
      Composed.serializeNode Q fuel (vnode t) a pid st
      = (Ok (serialized a pid t), st')
      /\ arrays st' !! a = Some (l ++ entries_of pid t).


(** * The host application (apps/web) *)

(** [s.split('##')[0]]: the text before the first [##], or all of [s]. *)
Definition first_segment (s : jsstring) : jsstring :=
  match split_sep s with Some (p, _) => p | None => s end.

Module App.

(** What the page asks of the browser, of React and of the libraries it
    imports, in the order of the calls. A root is named by the DOM element
    it was created on. *)
Inductive effect :=
| missingWidgetReferenced (metricKey : jsstring)
| consoleError (message : jsstring)
(** [console.error({ event }, e)] *)
| consoleError_event (data : value) (e : error)
| createRoot (domElement : nat)
| render (root : nat) (element : value)
| postMessageToIframe (id : jsstring) (message : value)
    (targetOrigin : jsstring)
| setRootWidgetSource (source : value)
| setWidgetUpdates (updates : jsstring)
| widgetAdded (widget : value)
| widgetCallbackInvoked (data : value)
| onCallbackInvocation (data : value)
| widgetCallbackReturned (data : value)
| onCallbackResponse (data : value)
| widgetRendered (data : value)
| onRender (data : value) (isDebug : bool)
| widgetUpdated (update : value).

(** The module-level objects [roots] and [widgets], and the calls made so
    far. Widget ids and paths are assumed not to be names of properties of
    [Object.prototype], which a lookup on [{}] would find. *)
Record page := Page {
  roots : gmap jsstring nat;
  widgets : gmap jsstring value;
  effects : list effect }.

Definition set_roots (f : gmap jsstring nat -> gmap jsstring nat) (p : page)
  : page :=
  Page (f (roots p)) (widgets p) (effects p).

Definition set_widgets (f : gmap jsstring value -> gmap jsstring value)
    (p : page) : page :=
  Page (roots p) (f (widgets p)) (effects p).

Definition record (e : effect) (p : page) : page :=
  Page (roots p) (widgets p) (effects p ++ [e]).

(** Computations on the page: they return or throw. *)
Definition A (X : Type) : Type := page -> outcome X * page.

Definition ret {X} (x : X) : A X := fun p => (Ok x, p).

Definition bind {X Y} (m : A X) (k : X -> A Y) : A Y :=
  fun p =>
    match m p with
    | (Ok x, p') => k x p'
    | (Throw e, p') => (Throw e, p')
    | (OutOfFuel, p') => (OutOfFuel, p')
    end.

Definition throw {X} (e : error) : A X := fun p => (Throw e, p).

Definition update (f : page -> page) : A unit := fun p => (Ok tt, f p).

Definition read {X} (f : page -> X) : A X := fun p => (Ok (f p), p).

Definition try_catch {X} (m : A X) (h : error -> A X) : A X :=
  fun p =>
    match m p with
    | (Throw e, p') => h e p'
    | r => r
    end.

Notation "'let+' x ':=' m 'in' k" := (bind m (fun x => k))
  (at level 10, x name, m at level 100, k at level 200).

(** What [onRender] may do with the [mountElement], [widgets] and
    [markWidgetUpdated] it is handed. *)
Inductive action :=
| Mount (widgetId : jsstring) (element : value)
| SetWidget (key : jsstring) (value : value)
| MarkWidgetUpdated (update : value).

(** The surroundings of the page. [getAppDomId] is a function on strings;
    [getElementById] is the document at the time of the call; [throws] says
    whether a call to the outside throws, and with what; [onRender_calls]
    is what [onRender] does with the callbacks it receives. Any behaviour
    is allowed. *)
Record Externals := {
  getAppDomId : jsstring -> jsstring;
  getElementById : page -> jsstring -> option nat;
  throws : effect -> page -> option error;
  onRender_calls : value -> page -> list action }.

Section web.

Context (E : Externals).

(** A call to the outside: it is made, and in the end returns or throws. *)
Definition leave (e : effect) : A unit :=
  fun p =>
    match throws E e p with
    | None => (Ok tt, p)
    | Some err => (Throw err, p)
    end.

Definition call (e : effect) : A unit :=
  let+ _ := update (record e) in leave e.

Definition node_not_found (widgetId : jsstring) : jsstring :=
  js "Node not found: #" ++ getAppDomId E widgetId.

(** [mountElement({ widgetId, element })] *)
Definition mountElement (widgetId : jsstring) (element : value) : A unit :=
  let+ known := read (fun p => roots p !! widgetId) in
  let+ mounted :=
    match known with
    | Some _ => ret true
    | None =>
        let+ domElement :=
          read (fun p => getElementById E p (getAppDomId E widgetId)) in
        match domElement with
        | None =>
            let metricKey := first_segment widgetId in
            let+ _ := call (missingWidgetReferenced metricKey) in
            let+ _ := update (record (consoleError (node_not_found widgetId))) in
            ret false
        | Some domElement =>
            let+ _ := call (createRoot domElement) in
            let+ _ := update (set_roots (insert widgetId domElement)) in
            ret true
        end
    end in
  if mounted then
    let+ root := read (fun p => roots p !! widgetId) in
    match root with
    | Some root => call (render root element)
    | None => throw TypeError
    end
  else ret tt.

Definition widgetFetch (widgetPath : jsstring) (isTrusted : value) : value :=
  VObj [(js "isTrusted", isTrusted);
        (js "source", VStr widgetPath);
        (js "type", VStr (js "transpiler.widgetFetch"))].

(** [requestWidgetSource({ widgetPath, isTrusted })] *)
Definition requestWidgetSource (widgetPath : jsstring) (isTrusted : value)
  : A unit :=
  call (postMessageToIframe (js "transpiler")
          (widgetFetch widgetPath isTrusted) (js "*")).

(** The handlers of [widgetProxy]. *)
Definition widgetProxy_get (key : jsstring) : A value :=
  read (fun p => default VUndefined (widgets p !! key)).

Definition widgetProxy_set (key : jsstring) (value : value) : A unit :=
  let+ current := read (fun p => default VUndefined (widgets p !! key)) in
  let+ _ :=
    if negb (truthy current) then
      if nullish value then throw TypeError
      else requestWidgetSource key (get value (js "isTrusted"))
    else ret tt in
  update (set_widgets (insert key value)).

(** The state of the component [Web] that a listener closes over. *)
Record view := {
  rootWidget : jsstring;
  rootWidgetSource : value;
  widgetUpdates : jsstring;
  showWidgetDebug : bool }.

(** [v === s] for a string [s]. *)
Definition is_string (v : value) (s : jsstring) : bool :=
  match v with VStr t => bool_decide (t = s) | _ => false end.

(** One call that [onRender] makes; what it throws stays inside
    [onRender]. *)
Definition perform (a : action) : A unit :=
  try_catch
    match a with
    | Mount widgetId element => mountElement widgetId element
    | SetWidget key value => widgetProxy_set key value
    | MarkWidgetUpdated u => call (widgetUpdated u)
    end
    (fun _ => ret tt).

Fixpoint perform_all (l : list action) : A unit :=
  match l with
  | [] => ret tt
  | a :: rest => let+ _ := perform a in perform_all rest
  end.

Definition sourceTranspiled (V : view) (data : value) : A unit :=
  let source := get data (js "source") in
  let widgetComponent := get data (js "widgetComponent") in
  let+ current := widgetProxy_get (to_string source) in
  let widget :=
    obj_set (own_entries [] current) (js "widgetComponent") widgetComponent in
  let+ _ :=
    if negb (truthy (rootWidgetSource V)) && is_string source (rootWidget V)
    then call (setRootWidgetSource source)
    else ret tt in
  let+ _ :=
    call (widgetAdded (VObj (obj_spread [(js "source", source)] widget))) in
  let+ _ := call (setWidgetUpdates (widgetUpdates V ++ to_string source)) in
  widgetProxy_set (to_string source) (VObj widget).

(** The function that [buildMessageListener(eventType)] returns, applied
    to an event with the given [data]. *)
Definition buildMessageListener (V : view) (eventType : jsstring)
    (data : value) : A unit :=
  try_catch
    (if negb (is_object data) then ret tt
     else if nullish data then throw TypeError
     else if negb (is_string (get data (js "type")) eventType) then ret tt
     else if decide (eventType = js "transpiler.sourceTranspiled") then
       sourceTranspiled V data
     else if decide (eventType = js "widget.callbackInvocation") then
       let+ _ := call (widgetCallbackInvoked data) in
       call (onCallbackInvocation data)
     else if decide (eventType = js "widget.callbackResponse") then
       let+ _ := call (widgetCallbackReturned data) in
       call (onCallbackResponse data)
     else if decide (eventType = js "widget.render") then
       let+ _ := call (widgetRendered data) in
       let+ _ := update (record (onRender data (showWidgetDebug V))) in
       let+ calls := read (onRender_calls E data) in
       let+ _ := perform_all calls in
       leave (onRender data (showWidgetDebug V))
     else ret tt)
    (fun e => update (record (consoleError_event data e))).

(** The four listeners that the effect registers, called in order with one
    message. *)
Definition messageListeners (V : view) : list (value -> A unit) :=
  [buildMessageListener V (js "transpiler.sourceTranspiled");
   buildMessageListener V (js "widget.callbackInvocation");
   buildMessageListener V (js "widget.callbackResponse");
   buildMessageListener V (js "widget.render")].

Fixpoint dispatch (listeners : list (value -> A unit)) (data : value)
  : A unit :=
  match listeners with
  | [] => ret tt
  | l :: rest => let+ _ := l data in dispatch rest data
  end.

End web.

(** What holds of the page at any time: every root was made by
    [createRoot], every element was rendered to the root of a widget, and
    every widget that is listed had its source requested. *)
Definition page_ok (p : page) : Prop :=
  (forall w r, roots p !! w = Some r -> createRoot r ∈ effects p)
  /\ (forall r e, render r e ∈ effects p -> exists w, roots p !! w = Some r)
  /\ (forall k v, widgets p !! k = Some v ->
        exists isTrusted,
          postMessageToIframe (js "transpiler") (widgetFetch k isTrusted)
            (js "*") ∈ effects p).

(** From [p] to [p']: roots and widgets are kept or added, never dropped,
    a root is never replaced, and the calls made are kept in order. *)
Definition extends (p p' : page) : Prop :=
  roots p ⊆ roots p'
  /\ (forall k, is_Some (widgets p !! k) -> is_Some (widgets p' !! k))
  /\ exists more, effects p' = effects p ++ more.

(** From [p] to [p'] nothing is lost, and what holds of the page holds
    still. *)
Definition step_ok (p p' : page) : Prop :=
  extends p p' /\ (page_ok p -> page_ok p').

(** [m] returns or throws, and keeps the page while it does. *)
Definition keeps {X} (m : A X) : Prop :=
  forall p r p', m p = (r, p') -> step_ok p p' /\ r <> OutOfFuel.

(** The event types of the four listeners. *)
Definition eventTypes : list jsstring :=
  [js "transpiler.sourceTranspiled"; js "widget.callbackInvocation";
   js "widget.callbackResponse"; js "widget.render"].



Definition empty_page : page := Page ∅ ∅ [].

End App.


(** ** A sample of the surroundings of the page *)

(** A document that holds the node of the root widget only, and an outside
    that never throws. *)
Definition sample_externals : App.Externals :=
  {| App.getAppDomId := fun id => js "dom-" ++ id;
     App.getElementById :=
       fun _ id => if decide (id = js "dom-root") then Some 0 else None;
     App.throws := fun _ _ => None;
     App.onRender_calls :=
       fun data _ =>
         [App.Mount (js "root") (get data (js "node"));
          App.SetWidget (js "a/Child") (VObj [(js "isTrusted", VBool false)])] |}.

Definition sample_view : App.view :=
  {| App.rootWidget := js "a/Root";
     App.rootWidgetSource := VNull;
     App.widgetUpdates := [];
     App.showWidgetDebug := false |}.


(** Two messages: the transpiled source of the root widget, and a callback
    invocation. *)
Definition transpiled_root : object :=
  [(js "type", VStr (js "transpiler.sourceTranspiled"));
   (js "source", VStr (js "a/Root"));
   (js "widgetComponent", VStr (js "function Root() {}"))].

Definition invocation_message : value :=
  VObj [(js "type", VStr (js "widget.callbackInvocation"));
        (js "method", VStr (js "onSave::c##x##p::p"))].


(** * Properties *)

(** ** The whitespace escaping *)

Lemma replace_unit_cons c d x s :
  replace_unit c d (x :: s) = (if (x =? c)%N then d else x) :: replace_unit c d s.
Proof. reflexivity. Qed.

Lemma decode_encode_unit (x : N) :
  x <> INVISIBLE_SEPARATOR -> x <> INVISIBLE_PLUS ->
  let e1 := if (x =? LF)%N then INVISIBLE_SEPARATOR else x in
  let e2 := if (e1 =? TAB)%N then INVISIBLE_PLUS else e1 in
  let d1 := if (e2 =? INVISIBLE_SEPARATOR)%N then LF else e2 in
  (if (d1 =? INVISIBLE_PLUS)%N then TAB else d1) = x.
Proof.
  intros Hs Hp. cbv zeta.
  destruct (N.eqb_spec x LF) as [->|Hlf]; [reflexivity|].
  destruct (N.eqb_spec x TAB) as [->|Htab]; [reflexivity|].
  destruct (N.eqb_spec x INVISIBLE_SEPARATOR) as [|_]; [contradiction|].
  destruct (N.eqb_spec x INVISIBLE_PLUS) as [|_]; [contradiction|].
  reflexivity.
Qed.

Lemma decode_encode_units (s : jsstring) :
  INVISIBLE_SEPARATOR ∉ s -> INVISIBLE_PLUS ∉ s ->
  replace_unit INVISIBLE_PLUS TAB
    (replace_unit INVISIBLE_SEPARATOR LF
       (replace_unit TAB INVISIBLE_PLUS
          (replace_unit LF INVISIBLE_SEPARATOR s))) = s.
Proof.
  induction s as [|x s IH]; intros Hs Hp; [reflexivity|].
  apply not_elem_of_cons in Hs as [Hxs Hs].
  apply not_elem_of_cons in Hp as [Hxp Hp].
  rewrite !replace_unit_cons, IH by assumption.
  f_equal. apply decode_encode_unit; congruence.
Qed.

(** C8, as the code has it: decoding an encoded string gives the string back
    when the string holds neither U+2063 nor U+2064 (newlines and tabs are
    allowed anywhere). *)
Theorem decode_encode_roundtrip (s : jsstring) :
  INVISIBLE_SEPARATOR ∉ s -> INVISIBLE_PLUS ∉ s ->
  decodeJsonString (encodeJsonString s) = s.
Proof.
  intros Hs Hp. destruct s as [|x s]; [reflexivity|].
  unfold encodeJsonString.
  pose proof (decode_encode_units (x :: s) Hs Hp) as H.
  rewrite !replace_unit_cons in *.
  unfold decodeJsonString. exact H.
Qed.

Lemma decode_encode_roundtrip_witness :
  decodeJsonString (encodeJsonString (js "a" ++ [LF; TAB] ++ js "b"))
  = js "a" ++ [LF; TAB] ++ js "b".
Proof.
  apply decode_encode_roundtrip; vm_compute;
    intros H; repeat (apply elem_of_cons in H as [H|H]; [discriminate H|]);
    by apply elem_of_nil in H.
Defined.

(** C8 as stated fails: a string with a newline that also holds U+2063 does
    not come back. *)
Lemma decode_encode_not_roundtrip :
  LF ∈ [LF; INVISIBLE_SEPARATOR] /\
  decodeJsonString (encodeJsonString [LF; INVISIBLE_SEPARATOR])
  <> [LF; INVISIBLE_SEPARATOR].
Proof. split; [left | vm_compute; discriminate]. Qed.

(** ** Component identity *)

Lemma buildComponentId_strings (i p q : jsstring) :
  buildComponentId (VStr i) (VStr p) q
  = p ++ HASH :: HASH :: i ++ HASH :: HASH :: q.
Proof. reflexivity. Qed.

Lemma split_sep_step (c d : N) (s : jsstring) :
  ((c =? HASH) && (d =? HASH))%N = false ->
  split_sep (c :: d :: s)
  = (fun p => (c :: p.1, p.2)) <$> split_sep (d :: s).
Proof. intros H. cbn [split_sep]. rewrite H. reflexivity. Qed.

Lemma split_sep_app (p r : jsstring) :
  sep_free p = true -> split_sep (p ++ HASH :: HASH :: r) = Some (p, r).
Proof.
  induction p as [|c p IH]; intros Hp; [reflexivity|].
  cbn [sep_free] in Hp.
  destruct (N.eqb_spec c HASH) as [->|Hc].
  - destruct p as [|d p]; [discriminate|].
    apply andb_prop in Hp as [Hd Hp]. apply negb_true_iff in Hd.
    change ((HASH :: d :: p) ++ HASH :: HASH :: r)
      with (HASH :: d :: (p ++ HASH :: HASH :: r)).
    rewrite split_sep_step by (rewrite Hd; apply andb_false_r).
    change (d :: p ++ HASH :: HASH :: r)
      with ((d :: p) ++ HASH :: HASH :: r).
    rewrite IH by exact Hp. reflexivity.
  - assert (Hne : ((c =? HASH)%N = false)) by (by apply N.eqb_neq).
    destruct p as [|d p].
    + change (([c]) ++ HASH :: HASH :: r) with (c :: HASH :: HASH :: r).
      rewrite split_sep_step by (rewrite Hne; reflexivity). reflexivity.
    + change ((c :: d :: p) ++ HASH :: HASH :: r)
        with (c :: d :: (p ++ HASH :: HASH :: r)).
      rewrite split_sep_step by (rewrite Hne; reflexivity).
      change (d :: p ++ HASH :: HASH :: r)
        with ((d :: p) ++ HASH :: HASH :: r).
      rewrite IH by exact Hp. reflexivity.
Qed.

Lemma sep_app_inj (p p' r r' : jsstring) :
  sep_free p = true -> sep_free p' = true ->
  p ++ HASH :: HASH :: r = p' ++ HASH :: HASH :: r' -> p = p' /\ r = r'.
Proof.
  intros Hp Hp' E.
  pose proof (split_sep_app p r Hp) as H.
  rewrite E, (split_sep_app p' r' Hp') in H.
  split; congruence.
Qed.

(** C3, as the code has it: [buildComponentId] is a function of its three
    inputs, and it tells two triples apart when the component paths and the
    instance ids are present and have no [##] inside and no [#] at the end. *)
Theorem buildComponentId_injective (i p q i' p' q' : jsstring) :
  sep_free p = true -> sep_free i = true ->
  sep_free p' = true -> sep_free i' = true ->
  buildComponentId (VStr i) (VStr p) q = buildComponentId (VStr i') (VStr p') q'
  <-> (p = p' /\ i = i' /\ q = q').
Proof.
  intros Hp Hi Hp' Hi'. split.
  - rewrite !buildComponentId_strings. intros E.
    apply sep_app_inj in E as [-> E]; [|assumption..].
    apply sep_app_inj in E as [-> ->]; [|assumption..].
    done.
  - intros (-> & -> & ->). reflexivity.
Qed.

Lemma buildComponentId_injective_witness :
  buildComponentId (VStr (js "x")) (VStr (js "a.near/widget/Child")) (js "r")
  = buildComponentId (VStr (js "y")) (VStr (js "a.near/widget/Child")) (js "r")
  <-> (js "a.near/widget/Child" = js "a.near/widget/Child"
       /\ js "x" = js "y" /\ js "r" = js "r").
Proof. apply buildComponentId_injective; reflexivity. Defined.

(** C3 as stated fails: an absent instance id and the empty one give the
    same id, and so do two triples that place a [##] differently. *)
Lemma buildComponentId_collisions :
  (of_option None <> of_option (Some []) /\
   buildComponentId (of_option None) (VStr (js "a/Child")) (js "root")
   = buildComponentId (of_option (Some [])) (VStr (js "a/Child")) (js "root"))
  /\
  (js "x##y" <> js "x" /\
   buildComponentId (VStr (js "x##y")) (VStr (js "a/Child")) (js "root")
   = buildComponentId (VStr (js "x")) (VStr (js "a/Child")) (js "y##root")).
Proof. vm_compute. repeat split; discriminate. Qed.

(** ** Objects *)

Lemma obj_lookup_set (o : object) k v k' :
  obj_lookup (obj_set o k v) k'
  = if decide (k = k') then Some v else obj_lookup o k'.
Proof.
  induction o as [|[k0 v0] o IH]; cbn [obj_set obj_lookup].
  - reflexivity.
  - destruct (decide (k0 = k)) as [->|Hk0]; cbn [obj_lookup].
    + destruct (decide (k = k')); reflexivity.
    + rewrite IH. destruct (decide (k0 = k')) as [->|]; [|reflexivity].
      destruct (decide (k = k')); congruence.
Qed.

Lemma obj_get_set (o : object) k v k' :
  obj_get (obj_set o k v) k' = if decide (k = k') then v else obj_get o k'.
Proof.
  unfold obj_get. rewrite obj_lookup_set. destruct (decide (k = k')); reflexivity.
Qed.

Lemma obj_lookup_app (a b : object) k :
  obj_lookup (a ++ b) k
  = match obj_lookup a k with Some v => Some v | None => obj_lookup b k end.
Proof.
  induction a as [|[k0 v0] a IH]; cbn [app obj_lookup]; [reflexivity|].
  destruct (decide (k0 = k)); [reflexivity | apply IH].
Qed.

Lemma obj_lookup_spread (a b : object) k :
  obj_lookup (obj_spread a b) k
  = match obj_lookup (reverse b) k with
    | Some v => Some v
    | None => obj_lookup a k
    end.
Proof.
  unfold obj_spread. revert a.
  induction b as [|[k0 v0] b IH]; intros a; cbn [foldl]; [reflexivity|].
  rewrite IH, reverse_cons, obj_lookup_app, obj_lookup_set. cbn [fst snd obj_lookup].
  destruct (obj_lookup (reverse b) k); [reflexivity|].
  destruct (decide (k0 = k)); reflexivity.
Qed.

Lemma obj_lookup_delete (o : object) d k :
  obj_lookup (obj_delete o d) k
  = if decide (k = d) then None else obj_lookup o k.
Proof.
  unfold obj_delete.
  induction o as [|[k0 v0] o IH]; cbn [obj_lookup].
  - rewrite filter_nil. destruct (decide (k = d)); reflexivity.
  - rewrite filter_cons. cbn [fst]. destruct (decide (k0 <> d)) as [Hk0|Hk0].
    + cbn [obj_lookup]. rewrite IH.
      destruct (decide (k0 = k)) as [->|]; [|reflexivity].
      destruct (decide (k = d)); congruence.
    + apply dec_stable in Hk0 as ->. rewrite IH.
      destruct (decide (d = k)) as [->|]; [|reflexivity].
      destruct (decide (k = k)); congruence.
Qed.

Lemma obj_lookup_elem_of (o : object) k v :
  obj_lookup o k = Some v -> (k, v) ∈ o.
Proof.
  induction o as [|[k0 v0] o IH]; cbn [obj_lookup]; [discriminate|].
  destruct (decide (k0 = k)) as [->|].
  - intros [= ->]. left.
  - intros H. right. auto.
Qed.

Lemma obj_lookup_is_Some (o : object) k :
  is_Some (obj_lookup o k) <-> k ∈ o.*1.
Proof.
  induction o as [|[k0 v0] o IH]; cbn [obj_lookup fmap list_fmap fst].
  - split; [intros [? [=]] | intros H; by apply elem_of_nil in H].
  - destruct (decide (k0 = k)) as [->|Hne].
    + split; [left | eauto].
    + rewrite IH. split; [by right|].
      intros [E|H]%elem_of_cons; [congruence | exact H].
Qed.

Lemma elem_of_obj_set (o : object) k v k' v' :
  (k', v') ∈ obj_set o k v -> (k', v') ∈ o \/ (k', v') = (k, v).
Proof.
  induction o as [|[k0 v0] o IH]; cbn [obj_set].
  - intros ->%list_elem_of_singleton. by right.
  - destruct (decide (k0 = k)) as [->|].
    + intros [->|H]%elem_of_cons; [by right | left; by right].
    + intros [->|H]%elem_of_cons; [left; by left|].
      destruct (IH H) as [?|?]; [left; by right | by right].
Qed.

Lemma obj_set_keys (o : object) k v k' :
  k' ∈ (obj_set o k v).*1 <-> k' = k \/ k' ∈ o.*1.
Proof.
  rewrite <- !obj_lookup_is_Some, obj_lookup_set.
  destruct (decide (k = k')) as [->|Hne].
  - split; [by left | eauto].
  - split; [by right | intros [->|H]; [done | exact H]].
Qed.

(** ** The monad *)

Lemma bind_ok {A B} (m : M A) (k : A -> M B) st a st1 :
  m st = (Ok a, st1) -> bind m k st = k a st1.
Proof. intros H. unfold bind. rewrite H. reflexivity. Qed.

Lemma bind_throw {A B} (m : M A) (k : A -> M B) st e st1 :
  m st = (Throw e, st1) -> bind m k st = (Throw e, st1).
Proof. intros H. unfold bind. rewrite H. reflexivity. Qed.

Lemma bind_inv_ok {A B} (m : M A) (k : A -> M B) st b st2 :
  bind m k st = (Ok b, st2) ->
  exists a st1, m st = (Ok a, st1) /\ k a st1 = (Ok b, st2).
Proof.
  unfold bind. destruct (m st) as [[a|e|] st1]; [eauto | discriminate..].
Qed.

Lemma foldM_nil {A B} (f : B -> A -> M B) b st : foldM f b [] st = (Ok b, st).
Proof. reflexivity. Qed.

Lemma foldM_cons {A B} (f : B -> A -> M B) b x xs :
  foldM f b (x :: xs) = bind (f b x) (fun b' => foldM f b' xs).
Proof. reflexivity. Qed.

(** ** Props on the receiving side *)

Lemma deserialize_fold_ok pc cid props entries cc st r st' :
  foldM (deserialize_entry pc cid props) cc entries st = (Ok r, st') ->
  st' = st
  /\ (forall k v, (k, v) ∈ r ->
        (k, v) ∈ cc \/ (k ∈ entries.*1 /\ exists m, v = VInvoker pc cid m))
  /\ (forall k, k ∈ cc.*1 \/ k ∈ entries.*1 -> k ∈ r.*1)
  /\ (forall k, k ∈ r.*1 -> k ∈ cc.*1 \/ k ∈ entries.*1)
  /\ (forall k, k ∈ entries.*1 -> truthy (get props k) = false).
Proof.
  revert cc st. induction entries as [|[k0 v0] entries IH]; intros cc st.
  - rewrite foldM_nil. intros [= <- <-].
    split_and!; [done | by left | intros k [H|H%elem_of_nil]; done
                | by left | intros k H%elem_of_nil; done].
  - rewrite foldM_cons. intros H. apply bind_inv_ok in H as (cc1 & st1 & H1 & H).
    unfold deserialize_entry in H1. cbn [fst snd] in H1.
    destruct (nullish v0); [discriminate|].
    destruct (truthy (get props k0)) eqn:Ht; [discriminate|].
    injection H1 as <- <-.
    apply IH in H as (-> & Hv & Hk & Hk' & Hf).
    split_and!; [done|..].
    + intros k v Hin. destruct (Hv k v Hin) as [Hcc|[Hin' Hm]].
      * apply elem_of_obj_set in Hcc as [Hcc|[= -> ->]]; [by left|].
        right. split; [left | eauto].
      * right. split; [by right | done].
    + intros k Hin. apply Hk. rewrite obj_set_keys.
      destruct Hin as [Hin|[->|Hin]%elem_of_cons]; auto.
    + intros k Hin. destruct (Hk' k Hin) as [[->|H]%obj_set_keys|H].
      * right; left.
      * by left.
      * right; by right.
    + intros k [->|Hin]%elem_of_cons; [exact Ht | by apply Hf].
Qed.

Lemma deserializeProps_unfold pc cid props st :
  deserializeProps pc cid props st
  = if nullish props then (Throw TypeError, st)
    else
      match
        foldM (deserialize_entry pc cid props) []
          (own_entries (arrays st) (get props (js "__componentcallbacks"))) st
      with
      | (Ok cc, st') =>
          (Ok (VObj (obj_spread
                       (obj_delete (own_entries (arrays st) props)
                          (js "__componentcallbacks")) cc)), st')
      | (Throw e, st') => (Throw e, st')
      | (OutOfFuel, st') => (OutOfFuel, st')
      end.
Proof.
  unfold deserializeProps. destruct (nullish props) eqn:Hn; [reflexivity|].
  unfold spread, Object_entries, bind, read.
  set (cc := get props (js "__componentcallbacks")).
  assert (Hent : own_entries (arrays st) (if truthy cc then cc else VObj [])
                 = own_entries (arrays st) cc).
  { destruct (truthy cc) eqn:Ht; [reflexivity|].
    destruct cc as [| | b|n|s| | | | | |]; try discriminate Ht; try reflexivity.
    destruct s; [reflexivity | discriminate Ht]. }
  assert (Hnn : nullish (if truthy cc then cc else VObj []) = false).
  { destruct cc as [| |[]|n|[|]| | | | | |]; try reflexivity.
    cbn. destruct (n =? 0)%Z; reflexivity. }
  rewrite Hnn, Hent. reflexivity.
Qed.

Lemma invoke_root E componentId method args st :
  invoke E None componentId method args st
  = (Ok VUndefined, log root_error st).
Proof. reflexivity. Qed.

(** What [deserializeProps] returns: the entries of [props] without
    [__componentcallbacks], then one invoker per callback name. *)
Lemma deserializeProps_ok_inv pc cid props st r st' :
  deserializeProps pc cid props st = (Ok r, st') ->
  st' = st /\
  exists cc,
    r = VObj (obj_spread
                (obj_delete (own_entries (arrays st) props)
                   (js "__componentcallbacks")) cc)
    /\ (forall k v, (k, v) ∈ cc -> exists m, v = VInvoker pc cid m)
    /\ (forall k, k ∈ cc.*1 <->
          k ∈ (own_entries (arrays st)
                 (get props (js "__componentcallbacks"))).*1)
    /\ (forall k, k ∈ cc.*1 -> truthy (get props k) = false).
Proof.
  rewrite deserializeProps_unfold. destruct (nullish props); [discriminate|].
  destruct (foldM _ _ _ _) as [[cc|e|] st1] eqn:Hf; [|discriminate..].
  intros [= <- <-].
  apply deserialize_fold_ok in Hf as (-> & Hv & Hk & Hk' & Hfalsy).
  split; [done|]. exists cc. split_and!; [done|..].
  - intros k v Hin. destruct (Hv k v Hin) as [H%elem_of_nil|[_ H]]; done.
  - intros k. split.
    + intros H. destruct (Hk' k H) as [H'%elem_of_nil|H']; done.
    + intros H. apply Hk. by right.
  - intros k H. apply Hfalsy. destruct (Hk' k H) as [H'%elem_of_nil|H']; done.
Qed.

(** C4: in a root context ([parentContainerId] is [null]) every function
    that [deserializeProps] built for a callback name, when called with any
    arguments in any state of the container, returns [undefined] without
    throwing and changes the container only by one [console.error] line:
    the [RequestMap] is as before and no collaborator (request id, request
    builder, [postCallbackInvocationMessage]) has run. *)
Theorem root_invocation_is_reported E componentId props st r st' methodName :
  deserializeProps None componentId props st = (Ok r, st') ->
  methodName ∈ (own_entries (arrays st)
                  (get props (js "__componentcallbacks"))).*1 ->
  exists method,
    get r methodName = VInvoker None componentId method
    /\ forall args st1,
         call_invoker E (get r methodName) args st1
         = (Ok VUndefined, log root_error st1)
         /\ requests (log root_error st1) = requests st1
         /\ callbacks (log root_error st1) = callbacks st1
         /\ console (log root_error st1) = console st1 ++ [root_error].
Proof.
  intros H Hin.
  apply deserializeProps_ok_inv in H as (-> & cc & -> & Hv & Hk & _).
  apply Hk in Hin. apply obj_lookup_is_Some in Hin as Hsome.
  assert (exists v, obj_lookup (reverse cc) methodName = Some v) as [v Hrev].
  { apply obj_lookup_is_Some. rewrite fmap_reverse, elem_of_reverse.
    exact Hin. }
  apply obj_lookup_elem_of in Hrev as Hel. rewrite elem_of_reverse in Hel.
  destruct (Hv _ _ Hel) as [m ->].
  exists m. cbn [get]. unfold obj_get. rewrite obj_lookup_spread, Hrev.
  cbn [default]. split; [reflexivity|]. intros args st1. done.
Qed.

Lemma root_invocation_is_reported_witness :
  exists method,
    get (VObj [(js "title", VStr (js "hello"));
               (js "onSave",
                 VInvoker None (js "c##x##p") (VStr (js "onSave::c##x##p::p")))])
      (js "onSave")
    = VInvoker None (js "c##x##p") method
    /\ forall args st1,
         call_invoker sample_collaborators
           (get (VObj [(js "title", VStr (js "hello"));
                       (js "onSave",
                         VInvoker None (js "c##x##p")
                           (VStr (js "onSave::c##x##p::p")))])
              (js "onSave")) args st1
         = (Ok VUndefined, log root_error st1)
         /\ requests (log root_error st1) = requests st1
         /\ callbacks (log root_error st1) = callbacks st1
         /\ console (log root_error st1) = console st1 ++ [root_error].
Proof.
  apply (root_invocation_is_reported sample_collaborators (js "c##x##p")
           sample_props empty_context _ empty_context (js "onSave")).
  - vm_compute. reflexivity.
  - vm_compute. left.
Defined.



(** The duplicate check looks at the value of the plain prop, not at its
    presence: a callback name whose plain prop is truthy is rejected. *)
Lemma deserialize_fold_truthy_duplicate pc cid props entries cc st k :
  Forall (fun e => nullish e.2 = false) entries ->
  k ∈ entries.*1 -> truthy (get props k) = true ->
  exists k', k' ∈ entries.*1 /\
    foldM (deserialize_entry pc cid props) cc entries st
    = (Throw (duplicate_props_key k' cid), st).
Proof.
  revert cc. induction entries as [|[k0 v0] entries IH]; intros cc Hnn Hin Ht.
  { by apply elem_of_nil in Hin. }
  apply Forall_cons in Hnn as [Hn0 Hnn]. cbn [snd] in Hn0.
  rewrite foldM_cons. unfold bind, deserialize_entry at 1. cbn [fst snd].
  rewrite Hn0. destruct (truthy (get props k0)) eqn:Ht0.
  - exists k0. split; [left | reflexivity].
  - cbn [ret]. cbn [fmap list_fmap fst] in Hin.
    apply elem_of_cons in Hin as [->|Hin]; [congruence|].
    destruct (IH (obj_set cc k0 (VInvoker pc cid (get v0 (js "__componentMethod"))))
                Hnn Hin Ht) as (k' & Hk' & ->).
    exists k'. split; [by right | reflexivity].
Qed.

Lemma deserializeProps_rejects_truthy_duplicate pc cid (o : object) st k :
  Forall (fun e => nullish e.2 = false)
    (own_entries (arrays st) (obj_get o (js "__componentcallbacks"))) ->
  k ∈ (own_entries (arrays st) (obj_get o (js "__componentcallbacks"))).*1 ->
  truthy (obj_get o k) = true ->
  exists k',
    deserializeProps pc cid (VObj o) st
    = (Throw (duplicate_props_key k' cid), st).
Proof.
  intros Hnn Hin Ht. rewrite deserializeProps_unfold. cbn [nullish get].
  destruct (deserialize_fold_truthy_duplicate pc cid (VObj o) _ [] st k Hnn Hin Ht)
    as (k' & _ & ->).
  eauto.
Qed.



(** C5, the defect: the name [onSave] is a value prop (holding [0]) and a
    callback of the same component, and [deserializeProps] returns instead
    of throwing; the value prop is lost to the invoker. *)
Theorem deserializeProps_accepts_falsy_duplicate :
  obj_has [(js "onSave", VNum 0)] (js "onSave") = true
  /\ deserializeProps (Some (js "p")) (js "c##x##p") clashing_props empty_context
     = (Ok (VObj [(js "onSave",
                    VInvoker (Some (js "p")) (js "c##x##p")
                      (VStr (js "onSave::c##x##p::p")))]),
        empty_context).
Proof. split; vm_compute; reflexivity. Qed.

(** C10, the defect: the plain entry [label] (the empty string) is not in
    the result as it was: the invoker of the callback [label] took its
    place. [__domcallbacks] is untouched and [__componentcallbacks] is
    gone. *)
Theorem deserializeProps_overwrites_falsy_prop :
  exists r,
    deserializeProps (Some (js "p")) (js "c##x##p") clashing_label_props
      empty_context = (Ok r, empty_context)
    /\ get clashing_label_props (js "label") = VStr []
    /\ get r (js "label")
       = VInvoker (Some (js "p")) (js "c##x##p")
           (VStr (js "label::c##x##p::p"))
    /\ get r (js "__domcallbacks")
       = get clashing_label_props (js "__domcallbacks")
    /\ has r (js "__componentcallbacks") = false.
Proof. eexists. split_and!; vm_compute; reflexivity. Qed.

(** ** [serializeProps] on props without rendered nodes *)

Lemma is_proxy_object v : is_proxy v = true -> exists o, v = VObj o.
Proof. destruct v; try discriminate. eauto. Qed.

Lemma foldM_ext {A B} (f g : B -> A -> M B) b xs st :
  (forall b x st, f b x st = g b x st) ->
  foldM f b xs st = foldM g b xs st.
Proof.
  intros Hfg. revert b st. induction xs as [|x xs IH]; intros b st.
  - reflexivity.
  - rewrite !foldM_cons. unfold bind. rewrite Hfg.
    destruct (g b x st) as [[b'|e|] st1]; [apply IH | reflexivity..].
Qed.

(** The composed [serializeProps] is the one of serialize.ts with a decoder
    that changes nothing. *)
Lemma bind_ext {A B} (m : M A) (k k' : A -> M B) st :
  (forall a st, k a st = k' a st) -> bind m k st = bind m k' st.
Proof.
  intros H. unfold bind. destruct (m st) as [[a|e|] st1]; [apply H | reflexivity..].
Qed.

Lemma composed_serializeProps_standalone sn cid pid props st :
  Composed.serializeProps_with sn cid pid props st
  = Standalone.serializeProps_with (standalone_params (fun s => s))
      sn cid pid props st.
Proof.
  unfold Composed.serializeProps_with, Standalone.serializeProps_with.
  cbn [Standalone.decodeJsonStringParam standalone_params].
  apply bind_ext. intros entries st1.
  unfold bind at 1 3. erewrite foldM_ext; [reflexivity|].
  intros newProps [key v] st2. cbn [fst snd].
  destruct (is_function v); [reflexivity|].
  destruct (is_vnode v); [reflexivity|].
  destruct v; reflexivity.
Qed.

Lemma add_marker_plain (newProps : object) family key marker st :
  match obj_get newProps family with
  | VUndefined | VObj _ => True
  | _ => False
  end ->
  add_marker newProps family key marker st
  = (Ok (match obj_get newProps family with
         | VObj o => obj_set newProps family (VObj (obj_set o key marker))
         | _ => obj_set newProps family (VObj [(key, marker)])
         end), st).
Proof.
  unfold add_marker. destruct (obj_get newProps family); intros []; reflexivity.
Qed.

Lemma family_of_cases cid :
  family_of cid = COMPONENT_CALLBACKS \/ family_of cid = DOM_CALLBACKS.
Proof. unfold family_of. destruct (truthy _); auto. Qed.

Lemma slots_ok_step decode cid pid newProps e :
  slots_ok newProps ->
  (is_function e.2 = false ->
   e.1 <> COMPONENT_CALLBACKS /\ e.1 <> DOM_CALLBACKS) ->
  slots_ok (plain_step decode cid pid newProps e).
Proof.
  intros Hok He family Hfam. unfold plain_step.
  destruct (is_function e.2) eqn:Hfn.
  - pose proof (Hok family Hfam) as Hslot.
    destruct (obj_get newProps (family_of cid)) eqn:Hg;
      rewrite obj_get_set; destruct (decide (family_of cid = family));
      done.
  - destruct (He eq_refl) as [H1 H2]. rewrite obj_get_set.
    destruct (decide (e.1 = family)) as [E|_]; [|by apply Hok].
    destruct Hfam; congruence.
Qed.

Lemma set_callbacks_id st : set_callbacks (fun cb => cb) st = st.
Proof. destruct st; reflexivity. Qed.

Lemma serialize_callback_plain cid pid newProps key fn st :
  slots_ok newProps ->
  serialize_callback cid pid newProps key fn st
  = (Ok (plain_step (fun s => s) cid pid newProps (key, fn)
         (* the decoder plays no part for a function *)),
     set_callbacks (insert (fnKey_of key cid fn pid) fn) st)
  \/ is_function fn = false.
Proof.
  intros Hok. destruct (is_function fn) eqn:Hfn; [left | by right].
  unfold serialize_callback, plain_step, register, update, bind.
  cbn [fst snd]. rewrite Hfn. unfold family_of, marker_of.
  destruct (truthy (of_option cid)).
  - rewrite add_marker_plain by (apply Hok; by left). reflexivity.
  - rewrite add_marker_plain by (apply Hok; by right). reflexivity.
Qed.

Lemma plain_step_function decode decode' cid pid newProps e :
  is_function e.2 = true ->
  plain_step decode cid pid newProps e = plain_step decode' cid pid newProps e.
Proof. intros H. unfold plain_step. rewrite H. reflexivity. Qed.

Lemma standalone_reducer_plain P sn cid pid newProps e st :
  is_vnode e.2 = false -> slots_ok newProps ->
  (if negb (is_function e.2) then
     let* serializedValue :=
       if is_vnode e.2 then
         let* childComponents := new_array in
         sn e.2 childComponents pid
       else
         match e.2 with
         | VStr s => ret (VStr (Standalone.decodeJsonStringParam P s))
         | _ =>
             if is_proxy e.2 then
               let* copy := spread e.2 in ret (VObj copy)
             else ret e.2
         end in
     ret (obj_set newProps e.1 serializedValue)
   else serialize_callback cid pid newProps e.1 e.2) st
  = (Ok (plain_step (Standalone.decodeJsonStringParam P) cid pid newProps e),
     if is_function e.2 then
       set_callbacks (insert (fnKey_of e.1 cid e.2 pid) e.2) st
     else st).
Proof.
  intros Hv Hok. destruct (is_function e.2) eqn:Hfn; cbn [negb].
  - destruct (serialize_callback_plain cid pid newProps e.1 e.2 st Hok)
      as [->|H]; [|congruence].
    destruct e as [k v]. cbn [fst snd] in *.
    by rewrite (plain_step_function _ (Standalone.decodeJsonStringParam P)).
  - rewrite Hv. unfold plain_step. rewrite Hfn.
    destruct e as [k v]. cbn [fst snd] in *.
    destruct (is_proxy v) eqn:Hp.
    + apply is_proxy_object in Hp as [o ->]. reflexivity.
    + destruct v; reflexivity.
Qed.

Lemma plain_props_cons e o :
  plain_props (e :: o) <->
  (is_vnode e.2 = false /\ e.1 <> COMPONENT_CALLBACKS /\ e.1 <> DOM_CALLBACKS)
  /\ plain_props o.
Proof.
  unfold plain_props. split.
  - intros H. inversion H; subst. done.
  - intros [H1 H2]. by constructor.
Qed.

Lemma standalone_fold_plain P sn cid pid o newProps st :
  plain_props o -> slots_ok newProps ->
  foldM (fun (newProps : object) (entry : jsstring * value) =>
      if negb (is_function entry.2) then
        let* serializedValue :=
          if is_vnode entry.2 then
            let* childComponents := new_array in
            sn entry.2 childComponents pid
          else
            match entry.2 with
            | VStr s => ret (VStr (Standalone.decodeJsonStringParam P s))
            | _ =>
                if is_proxy entry.2 then
                  let* copy := spread entry.2 in ret (VObj copy)
                else ret entry.2
            end in
        ret (obj_set newProps entry.1 serializedValue)
      else serialize_callback cid pid newProps entry.1 entry.2)
    newProps o st
  = (Ok (foldl (plain_step (Standalone.decodeJsonStringParam P) cid pid)
           newProps o),
     set_callbacks (registered cid pid o) st).
Proof.
  revert newProps st. induction o as [|e o IH]; intros newProps st Hplain Hok.
  - rewrite foldM_nil. cbn [foldl]. unfold registered. cbn [foldl].
    by rewrite set_callbacks_id.
  - apply plain_props_cons in Hplain as [(Hv & H1 & H2) Hplain].
    rewrite foldM_cons.
    erewrite bind_ok by (apply standalone_reducer_plain; assumption).
    rewrite IH; [|assumption|by apply slots_ok_step].
    cbn [foldl]. f_equal. unfold registered. cbn [foldl].
    destruct (is_function e.2); [reflexivity|].
    reflexivity.
Qed.

Lemma standalone_serializeProps_with_plain P sn cid pid o st :
  plain_props o ->
  Standalone.serializeProps_with P sn cid pid (VObj o) st
  = (Ok (VObj (plain_result (Standalone.decodeJsonStringParam P) cid pid o)),
     set_callbacks (registered cid pid o) st).
Proof.
  intros Hplain. unfold Standalone.serializeProps_with.
  unfold Object_entries. cbn [nullish].
  erewrite bind_ok by reflexivity. cbn [own_entries].
  erewrite bind_ok.
  2:{ apply standalone_fold_plain; [assumption|]. intros family _. done. }
  reflexivity.
Qed.


Lemma composed_serializeProps_with_plain sn cid pid o st :
  plain_props o ->
  Composed.serializeProps_with sn cid pid (VObj o) st
  = (Ok (VObj (plain_result (fun s => s) cid pid o)),
     set_callbacks (registered cid pid o) st).
Proof.
  intros Hplain. rewrite composed_serializeProps_standalone.
  by rewrite standalone_serializeProps_with_plain.
Qed.

Lemma composed_serializeProps_plain P fuel cid pid o st :
  plain_props o ->
  Composed.serializeProps P fuel cid pid (VObj o) st
  = (Ok (VObj (plain_result (fun s => s) cid pid o)),
     set_callbacks (registered cid pid o) st).
Proof. apply composed_serializeProps_with_plain. Qed.

Lemma plain_step_lookup_other decode cid pid newProps e k :
  k <> COMPONENT_CALLBACKS -> k <> DOM_CALLBACKS -> k <> e.1 ->
  obj_lookup (plain_step decode cid pid newProps e) k = obj_lookup newProps k.
Proof.
  intros H1 H2 H3. unfold plain_step.
  assert (Hfam : family_of cid <> k).
  { destruct (family_of_cases cid) as [-> | ->]; congruence. }
  destruct (is_function e.2).
  - destruct (obj_get newProps (family_of cid));
      rewrite obj_lookup_set; by destruct (decide _).
  - rewrite obj_lookup_set. destruct (decide (e.1 = k)); congruence.
Qed.

Lemma plain_fold_lookup_other decode cid pid o newProps k :
  k <> COMPONENT_CALLBACKS -> k <> DOM_CALLBACKS -> k ∉ o.*1 ->
  obj_lookup (foldl (plain_step decode cid pid) newProps o) k
  = obj_lookup newProps k.
Proof.
  intros H1 H2. revert newProps. induction o as [|e o IH]; intros newProps Hk.
  - reflexivity.
  - cbn [foldl]. cbn [fmap list_fmap] in Hk.
    apply not_elem_of_cons in Hk as [Hne Hk].
    rewrite IH by exact Hk. by apply plain_step_lookup_other.
Qed.

Lemma plain_fold_lookup_value decode cid pid o newProps k v :
  plain_props o -> NoDup o.*1 -> (k, v) ∈ o -> is_function v = false ->
  obj_lookup (foldl (plain_step decode cid pid) newProps o) k
  = Some (on_string decode v).
Proof.
  revert newProps. induction o as [|e o IH]; intros newProps Hplain Hnd Hin Hfn.
  { by apply elem_of_nil in Hin. }
  apply plain_props_cons in Hplain as [(Hv & H1 & H2) Hplain].
  cbn [fmap list_fmap] in Hnd. apply NoDup_cons in Hnd as [Hfresh Hnd].
  cbn [foldl]. apply elem_of_cons in Hin as [<-|Hin].
  - cbn [fst] in *. rewrite plain_fold_lookup_other by assumption.
    unfold plain_step. cbn [fst snd]. rewrite Hfn, obj_lookup_set.
    by destruct (decide (k = k)).
  - by apply IH.
Qed.




(** ** Callback keys *)










Lemma mapM_cons {A B} (f : A -> M B) x xs :
  mapM f (x :: xs)
  = bind (f x) (fun y => bind (mapM f xs) (fun ys => ret (y :: ys))).
Proof. reflexivity. Qed.





(** ** Function-typed nodes *)

Lemma read_ok {A} (f : context -> A) st : read f st = (Ok (f st), st).
Proof. reflexivity. Qed.

Lemma props_of_ok node st :
  props_of node st
  = (Ok (obj_delete (own_entries (arrays st) (get node (js "props")))
           (js "children")), st).
Proof. reflexivity. Qed.

(** C6, as the two serializers have it. In serialize.ts a node whose type
    is a function that is not the root component, not a builtin and not
    [Widget] is a pass-through: once the entries bubbled by its children are
    merged ([st] to [st1]) the function is called with the node's props plus
    the derived identity ([st1] to [st2]), and the node serializes as what
    the function rendered, with the derived id as parent id and the same
    accumulator; the node itself adds no entry. In
    [composeSerializationMethods] a function that neither [isWidget] nor
    [isComponent] accepts is rejected: [serializeNode] throws. *)
Theorem function_node_passes_through_or_is_rejected
    (P : Standalone.SerializeParams)
    (Q : Composed.ComposeSerializationMethodsParams)
    fuel node (a : nat) pid st st1 :
  truthy node = true -> is_object node = true ->
  is_function (get node (js "type")) = true ->
  merge_bubbled (unify (arrays st) (children_of node)) a st = (Ok tt, st1) ->
  let type := get node (js "type") in
  let props :=
    obj_delete (own_entries (arrays st) (get node (js "props")))
      (js "children") in
  let componentId :=
    buildComponentId (obj_get props (js "id")) (obj_get props (js "src")) pid in
  (fn_name_of type <> Standalone.preactRootComponentName P ->
   truthy (get (Standalone.builtinComponents P) (fn_name_of type)) = false ->
   fn_name_of type <> js "Widget" ->
   forall rendered st2,
     Standalone.call P type
       (Standalone.passthrough_props (arrays st1) props componentId)
       st1 = (Ok rendered, st2) ->
     Standalone.serializeNode P (S fuel) node a pid st
     = Standalone.serializeNode P fuel rendered a componentId st2)
  /\ (Composed.isWidget Q type = false ->
      Composed.isComponent Q type = false ->
      Composed.serializeNode Q (S fuel) node a pid st
      = (Throw (Error (js "unrecognized Component function "
                       ++ fn_name_of type)), st1)).
Proof.
  intros Ht Ho Hfn Hmerge. cbv zeta. split.
  - intros Hroot Hbuiltin Hwidget rendered st2 Hcall.
    cbn [Standalone.serializeNode]. rewrite Ht, Ho. cbn [negb orb].
    erewrite bind_ok by apply props_of_ok.
    erewrite bind_ok by apply read_ok.
    erewrite bind_ok by exact Hmerge.
    rewrite Hfn.
    destruct (decide (_ = Standalone.preactRootComponentName P));
      [contradiction|].
    rewrite Hbuiltin.
    destruct (decide (_ = js "Widget")); [contradiction|].
    erewrite bind_ok by apply read_ok.
    erewrite bind_ok by exact Hcall.
    reflexivity.
  - intros Hw Hc.
    cbn [Composed.serializeNode]. rewrite Ht, Ho. cbn [negb orb].
    erewrite bind_ok by apply props_of_ok.
    erewrite bind_ok by apply read_ok.
    erewrite bind_ok by exact Hmerge.
    rewrite Hfn, Hw, Hc. reflexivity.
Qed.

Lemma function_node_passes_through_or_is_rejected_witness :
  Standalone.serializeNode card_params 3 card_node 0 (js "p") empty_context
  = Standalone.serializeNode card_params 2
      (element (VStr (js "section")) [(js "id", VStr (js "dom-####p"))]
         [VStr (js "hello")])
      0 (js "####p") empty_context
  /\ Composed.serializeNode sample_params 3 card_node 0 (js "p") empty_context
     = (Throw (Error (js "unrecognized Component function Card")),
        empty_context).
Proof.
  destruct (function_node_passes_through_or_is_rejected card_params
              sample_params 2 card_node 0 (js "p") empty_context empty_context)
    as [Hpass Hreject]; [reflexivity..|].
  split.
  - apply Hpass; [discriminate | reflexivity | discriminate | reflexivity].
  - apply Hreject; reflexivity.
Defined.

(** C6 as stated fails in [composeSerializationMethods]: [Card] is a
    function that no check accepts, and its node is not rendered and
    flattened: [serializeNode] throws. *)
Lemma unrecognized_function_is_rejected :
  is_function Card = true
  /\ Composed.isWidget sample_params Card = false
  /\ Composed.isComponent sample_params Card = false
  /\ Composed.serializeNode sample_params 3 card_node 0 (js "p") empty_context
     = (Throw (Error (js "unrecognized Component function Card")),
        empty_context).
Proof. vm_compute. split_and!; reflexivity. Qed.

(** ** The accumulator is the only array a serializer writes to *)

Lemma frame_except_refl a st : frame_except a st st.
Proof. split; [lia | done]. Qed.

Lemma frame_except_trans a st1 st2 st3 :
  frame_except a st1 st2 -> frame_except a st2 st3 -> frame_except a st1 st3.
Proof.
  intros [Hl1 H1] [Hl2 H2]. split; [lia|].
  intros i Hi Ha. rewrite H2, H1; [done..|lia|done].
Qed.

Lemma frame_except_same_arrays a st st' :
  arrays st' = arrays st -> frame_except a st st'.
Proof. intros E. split; rewrite E; [lia | done]. Qed.

Lemma frame_except_weaken a st st' :
  frame_except None st st' -> frame_except a st st'.
Proof. intros [Hl H]. split; [done|]. intros i Hi _. by apply H. Qed.

Lemma frames_weaken {A} a (m : M A) : frames None m -> frames a m.
Proof. intros H st r st' E. eapply frame_except_weaken, H, E. Qed.

Lemma frames_ret {A} a (x : A) : frames a (ret x).
Proof. intros st r st' [= <- <-]. apply frame_except_refl. Qed.

Lemma frames_throw {A} a e : frames a (@throw A e).
Proof. intros st r st' [= <- <-]. apply frame_except_refl. Qed.

Lemma frames_out_of_fuel {A} a : frames a (@out_of_fuel A).
Proof. intros st r st' [= <- <-]. apply frame_except_refl. Qed.

Lemma frames_read {A} a (f : context -> A) : frames a (read f).
Proof. intros st r st' [= <- <-]. apply frame_except_refl. Qed.

Lemma frames_update a f :
  (forall st, arrays (f st) = arrays st) -> frames a (update f).
Proof. intros H st r st' [= <- <-]. by apply frame_except_same_arrays. Qed.

Lemma frames_log a e : frames a (update (log e)).
Proof. by apply frames_update. Qed.

Lemma frames_register a k v : frames a (register k v).
Proof. by apply frames_update. Qed.

Lemma frames_bind {A B} a (m : M A) (k : A -> M B) :
  frames a m -> (forall x, frames a (k x)) -> frames a (bind m k).
Proof.
  intros Hm Hk st r st'. unfold bind.
  destruct (m st) as [[x|e|] st1] eqn:E; intros H.
  - eapply frame_except_trans; [eapply Hm, E | eapply Hk, H].
  - injection H as <- <-. eapply Hm, E.
  - injection H as <- <-. eapply Hm, E.
Qed.

Lemma frames_try_catch {A} a (m : M A) (h : error -> M A) :
  frames a m -> (forall e, frames a (h e)) -> frames a (try_catch m h).
Proof.
  intros Hm Hh st r st'. unfold try_catch.
  destruct (m st) as [[x|e|] st1] eqn:E; intros H.
  - injection H as <- <-. eapply Hm, E.
  - eapply frame_except_trans; [eapply Hm, E | eapply Hh, H].
  - injection H as <- <-. eapply Hm, E.
Qed.

Lemma frames_mapM {A B} a (f : A -> M B) xs :
  (forall x, frames a (f x)) -> frames a (mapM f xs).
Proof.
  intros Hf. induction xs as [|x xs IH]; cbn [mapM].
  - apply frames_ret.
  - apply frames_bind; [apply Hf|]. intros y.
    apply frames_bind; [apply IH|]. intros ys. apply frames_ret.
Qed.

Lemma frames_foldM {A B} a (f : B -> A -> M B) b xs :
  (forall b x, frames a (f b x)) -> frames a (foldM f b xs).
Proof.
  intros Hf. revert b. induction xs as [|x xs IH]; intros b; cbn [foldM].
  - apply frames_ret.
  - apply frames_bind; [apply Hf|]. intros b'. apply IH.
Qed.

Lemma arrays_set_arrays f st : arrays (set_arrays f st) = f (arrays st).
Proof. reflexivity. Qed.

Lemma frames_push a v : frames (Some a) (push a v).
Proof.
  intros st r st' [= <- <-]. split; rewrite arrays_set_arrays.
  - by rewrite length_alter.
  - intros i Hi Hne. apply list_lookup_alter_ne. congruence.
Qed.

(** A fresh array and a computation that writes to it only. *)
Lemma frames_new_array {A} a (k : nat -> M A) :
  (forall n, frames (Some n) (k n)) -> frames a (bind new_array k).
Proof.
  intros Hk. apply frames_weaken. intros st r st'. unfold bind, new_array.
  intros H. apply Hk in H as [Hl H]. rewrite arrays_set_arrays in *.
  rewrite length_app in Hl. cbn [length] in Hl. split; [lia|].
  intros i Hi _. rewrite H.
  - by apply lookup_app_l.
  - rewrite length_app. lia.
  - intros [= ->]. lia.
Qed.

Lemma frames_add_marker a newProps family key marker :
  frames a (add_marker newProps family key marker).
Proof.
  unfold add_marker. destruct (truthy _); cbn [negb]; [|apply frames_ret].
  destruct (obj_get newProps family);
    first [apply frames_ret | apply frames_throw].
Qed.

Lemma frames_serialize_callback a cid pid newProps key fn :
  frames a (serialize_callback cid pid newProps key fn).
Proof.
  unfold serialize_callback. apply frames_bind; [apply frames_register|].
  intros _. destruct (truthy _); apply frames_add_marker.
Qed.

Lemma frames_spread a v : frames a (spread v).
Proof. apply frames_read. Qed.

Lemma frames_Object_entries a v : frames a (Object_entries v).
Proof.
  unfold Object_entries. destruct (nullish v);
    [apply frames_throw | apply frames_read].
Qed.

Lemma frames_merge_bubbled a unifiedChildren :
  frames (Some a) (merge_bubbled unifiedChildren a).
Proof.
  unfold merge_bubbled. apply frames_bind; [apply frames_read|]. intros h.
  apply frames_foldM. intros [] child.
  destruct (_ && _); [|apply frames_ret].
  apply frames_bind; [apply frames_read|]. intros h'.
  destruct (elements h' _); [|apply frames_throw].
  apply frames_foldM. intros [] c. apply frames_push.
Qed.

Lemma composed_frames_serializeProps_with sn a cid pid props :
  (forall v n pid, frames (Some n) (sn v n pid)) ->
  frames a (Composed.serializeProps_with sn cid pid props).
Proof.
  intros Hsn. unfold Composed.serializeProps_with.
  apply frames_bind; [apply frames_Object_entries|]. intros entries.
  apply frames_bind; [|intros; apply frames_ret].
  apply frames_foldM. intros newProps [key v]. cbn [fst snd].
  destruct (is_function v); cbn [negb]; [apply frames_serialize_callback|].
  apply frames_bind; [|intros; apply frames_ret].
  destruct (is_vnode v).
  - apply frames_new_array. intros n. apply Hsn.
  - destruct (is_proxy v); [|apply frames_ret].
    apply frames_bind; [apply frames_spread | intros; apply frames_ret].
Qed.

Lemma composed_frames_serializeChildComponent_with sp a pid props :
  (forall cid pid props, frames a (sp cid pid props)) ->
  frames a (Composed.serializeChildComponent_with sp pid props).
Proof.
  intros Hsp. unfold Composed.serializeChildComponent_with.
  apply frames_bind; [|intros; apply frames_ret].
  apply frames_try_catch.
  - apply frames_bind; [|intros; apply frames_ret].
    destruct (truthy _); [apply Hsp | apply frames_ret].
  - intros e. apply frames_bind; [apply frames_log | intros; apply frames_ret].
Qed.

(** [serializeNode] of [composeSerializationMethods] writes to its
    accumulator and to arrays it made itself, and to nothing else, whether
    it returns, throws or runs out of budget. *)
Lemma composed_frames_serializeNode P fuel node a pid :
  frames (Some a) (Composed.serializeNode P fuel node a pid).
Proof.
  revert node a pid. induction fuel as [|fuel IH]; intros node a pid.
  { apply frames_out_of_fuel. }
  cbn [Composed.serializeNode].
  destruct (_ || _); [apply frames_ret|].
  apply frames_bind; [apply frames_bind; [apply frames_spread|intros; apply frames_ret]|].
  intros props.
  apply frames_bind; [apply frames_read|]. intros h.
  apply frames_bind; [apply frames_merge_bubbled|]. intros _.
  destruct (is_function _).
  - destruct (_ && _); [apply frames_throw|].
    apply frames_bind.
    { destruct (Composed.isWidget _ _); [apply frames_log | apply frames_ret]. }
    intros _. apply frames_bind.
    { apply composed_frames_serializeChildComponent_with. intros cid pid' props'.
      apply composed_frames_serializeProps_with. apply IH. }
    intros r. apply frames_bind; [|intros; apply frames_ret].
    destruct (truthy _); [apply frames_push | apply frames_ret].
  - apply frames_bind.
    { apply composed_frames_serializeProps_with. apply IH. }
    intros serialized.
    apply frames_bind; [apply frames_spread|]. intros own.
    apply frames_bind; [apply frames_read|]. intros h'.
    apply frames_bind; [|intros; apply frames_ret].
    apply frames_mapM. intros c. destruct (truthy _); [apply IH | apply frames_ret].
Qed.

Lemma composed_frames_serializeProps P fuel a cid pid props :
  frames a (Composed.serializeProps P fuel cid pid props).
Proof.
  apply composed_frames_serializeProps_with. intros v n pid'.
  apply composed_frames_serializeNode.
Qed.

Lemma standalone_frames_serializeProps_with P sn a cid pid props :
  (forall v n pid, frames (Some n) (sn v n pid)) ->
  frames a (Standalone.serializeProps_with P sn cid pid props).
Proof.
  intros Hsn. unfold Standalone.serializeProps_with.
  apply frames_bind; [apply frames_Object_entries|]. intros entries.
  apply frames_bind; [|intros; apply frames_ret].
  apply frames_foldM. intros newProps [key v]. cbn [fst snd].
  destruct (is_function v); cbn [negb]; [apply frames_serialize_callback|].
  apply frames_bind; [|intros; apply frames_ret].
  destruct (is_vnode v).
  - apply frames_new_array. intros n. apply Hsn.
  - destruct v; try apply frames_ret;
      (destruct (is_proxy _); [|apply frames_ret]);
      (apply frames_bind; [apply frames_spread | intros; apply frames_ret]).
Qed.

(** The same for [serializeNode] of serialize.ts, when the functions it
    calls (builtins and component functions) leave the arrays alone. *)
Lemma standalone_frames_serializeNode P fuel node a pid :
  (forall fn arg, frames None (Standalone.call P fn arg)) ->
  frames (Some a) (Standalone.serializeNode P fuel node a pid).
Proof.
  intros Hcall. revert node a pid.
  induction fuel as [|fuel IH]; intros node a pid.
  { apply frames_out_of_fuel. }
  cbn [Standalone.serializeNode].
  destruct (_ || _); [apply frames_ret|].
  apply frames_bind; [apply frames_bind; [apply frames_spread|intros; apply frames_ret]|].
  intros props.
  apply frames_bind; [apply frames_read|]. intros h.
  apply frames_bind; [apply frames_merge_bubbled|]. intros _.
  assert (Hhost : forall ty props' children',
    frames (Some a)
      (let* serialized :=
         Standalone.serializeProps_with P (Standalone.serializeNode P fuel)
           None pid props' in
       let* own := spread serialized in
       let* h := read arrays in
       match elements h children' with
       | None => throw TypeError
       | Some l =>
           let* kids :=
             mapM (fun c =>
               if truthy (get c (js "props")) then
                 Standalone.serializeNode P fuel c a pid
               else ret c) (flat h l) in
           ret (VObj [(js "type", ty);
                      (js "props",
                        VObj (obj_set own (js "children") (VArr kids)));
                      (js "childComponents", VAcc a)])
       end)).
  { intros ty props' children'.
    apply frames_bind.
    { apply standalone_frames_serializeProps_with. apply IH. }
    intros serialized.
    apply frames_bind; [apply frames_spread|]. intros own.
    apply frames_bind; [apply frames_read|]. intros h'.
    destruct (elements h' children'); [|apply frames_throw].
    apply frames_bind; [|intros; apply frames_ret].
    apply frames_mapM. intros c.
    destruct (truthy _); [apply IH | apply frames_ret]. }
  destruct (is_function _); [|apply Hhost].
  destruct (decide _); [apply Hhost|].
  destruct (truthy _).
  { apply frames_bind; [apply frames_weaken, Hcall|]. intros r.
    destruct (nullish r); [apply frames_throw|].
    destruct (nullish _); [apply frames_throw|]. apply Hhost. }
  destruct (decide _).
  - apply frames_bind; [|intros; apply frames_ret].
    apply frames_try_catch.
    + apply frames_bind; [|intros; apply frames_push].
      destruct (truthy _); [|apply frames_ret].
      apply standalone_frames_serializeProps_with. apply IH.
    + intros err. apply frames_log.
  - apply frames_bind; [apply frames_read|]. intros h'.
    apply frames_bind; [apply frames_weaken, Hcall|]. intros rendered.
    apply IH.
Qed.

(** ** A component whose props fail to serialize *)

Lemma try_catch_throw {A} (m : M A) (h : error -> M A) st e st1 :
  m st = (Throw e, st1) -> try_catch m h st = h e st1.
Proof. intros H. unfold try_catch. rewrite H. reflexivity. Qed.

Lemma frame_except_lookup st st' a :
  frame_except None st st' -> a < length (arrays st) ->
  arrays st' !! a = arrays st !! a.
Proof. intros [_ H] Ha. by apply H. Qed.

Lemma merge_bubbled_length uc a st r st1 :
  merge_bubbled uc a st = (r, st1) ->
  length (arrays st) <= length (arrays st1).
Proof. intros H. by apply frames_merge_bubbled in H as [Hl _]. Qed.

Lemma composed_serializeChildComponent_throw sp pid (props : object) st e st2 :
  truthy (obj_get props (js "props")) = true ->
  sp (Some (buildComponentId (obj_get props (js "id"))
              (obj_get props (js "src")) pid)) pid
    (obj_get props (js "props")) st = (Throw e, st2) ->
  Composed.serializeChildComponent_with sp pid props st
  = (Ok (VUndefined,
         placeholder (buildComponentId (obj_get props (js "id"))
                        (obj_get props (js "src")) pid)),
     log (console_warn_with (dispatch_failed pid) e
            (obj_get props (js "props"))) st2).
Proof.
  intros Hcp Hthrow. unfold Composed.serializeChildComponent_with.
  rewrite Hcp. erewrite bind_ok; [reflexivity|].
  erewrite try_catch_throw by (apply bind_throw; exact Hthrow).
  reflexivity.
Qed.

(** C9. A node of a nested component whose props are truthy and fail to
    serialize with the error [e]: once the entries bubbled by its children
    are merged ([st] to [st1]), [serializeNode] returns the placeholder (it
    does not throw, so the [map] over the siblings goes on), the error is
    written with [console.warn], and the accumulator is what the merge left:
    no entry is pushed for the component and the failed serialization has
    not written to it. This is so in [composeSerializationMethods] for
    every function that [isWidget] or [isComponent] accepts, and in
    serialize.ts for [Widget]; there the last part needs that the functions
    the serializer calls leave the arrays alone. *)
Theorem failed_component_is_skipped
    (P : Standalone.SerializeParams)
    (Q : Composed.ComposeSerializationMethodsParams)
    fuel node (a : nat) pid st st1 :
  truthy node = true -> is_object node = true ->
  is_function (get node (js "type")) = true ->
  a < length (arrays st) ->
  merge_bubbled (unify (arrays st) (children_of node)) a st = (Ok tt, st1) ->
  let type := get node (js "type") in
  let props :=
    obj_delete (own_entries (arrays st) (get node (js "props")))
      (js "children") in
  let componentProps := obj_get props (js "props") in
  let componentId :=
    buildComponentId (obj_get props (js "id")) (obj_get props (js "src")) pid in
  truthy componentProps = true ->
  (Composed.isWidget Q type || Composed.isComponent Q type = true ->
   forall e st2,
     Composed.serializeProps Q fuel (Some componentId) pid componentProps
       (if Composed.isWidget Q type then
          log (console_warn Composed.widget_deprecated) st1
        else st1) = (Throw e, st2) ->
     Composed.serializeNode Q (S fuel) node a pid st
     = (Ok (placeholder componentId),
        log (console_warn_with (dispatch_failed pid) e componentProps) st2)
     /\ arrays st2 !! a = arrays st1 !! a)
  /\ (fn_name_of type <> Standalone.preactRootComponentName P ->
      truthy (get (Standalone.builtinComponents P) (fn_name_of type)) = false ->
      fn_name_of type = js "Widget" ->
      forall e st2,
        Standalone.serializeProps P fuel (Some componentId) pid componentProps
          st1 = (Throw e, st2) ->
        Standalone.serializeNode P (S fuel) node a pid st
        = (Ok (placeholder componentId),
           log (console_warn_with (dispatch_failed pid) e componentProps) st2)
        /\ ((forall fn arg, frames None (Standalone.call P fn arg)) ->
            arrays st2 !! a = arrays st1 !! a)).
Proof.
  intros Ht Ho Hfn Ha Hmerge. cbv zeta. intros Hcp.
  pose proof (merge_bubbled_length _ _ _ _ _ Hmerge) as Hlen.
  split.
  - intros Hrec e st2 Hthrow. split.
    + cbn [Composed.serializeNode]. rewrite Ht, Ho. cbn [negb orb].
      erewrite bind_ok by apply props_of_ok.
      erewrite bind_ok by apply read_ok.
      erewrite bind_ok by exact Hmerge.
      rewrite Hfn.
      apply orb_true_iff in Hrec.
      assert (Hneg : negb (Composed.isWidget Q (get node (js "type")))
                     && negb (Composed.isComponent Q (get node (js "type")))
                     = false).
      { destruct Hrec as [-> | ->]; [reflexivity | apply andb_false_r]. }
      rewrite Hneg.
      erewrite bind_ok.
      2:{ instantiate (1 := if Composed.isWidget Q (get node (js "type"))
                            then log (console_warn Composed.widget_deprecated) st1
                            else st1).
          instantiate (1 := tt).
          destruct (Composed.isWidget Q _); reflexivity. }
      erewrite bind_ok.
      2:{ apply composed_serializeChildComponent_throw; [exact Hcp|].
          exact Hthrow. }
      reflexivity.
    + apply composed_frames_serializeProps with (a := None) in Hthrow.
      rewrite (frame_except_lookup _ _ a Hthrow).
      * by destruct (Composed.isWidget Q _).
      * destruct (Composed.isWidget Q _); cbn [arrays log]; lia.
  - intros Hroot Hbuiltin Hwidget e st2 Hthrow. split.
    + cbn [Standalone.serializeNode]. rewrite Ht, Ho. cbn [negb orb].
      erewrite bind_ok by apply props_of_ok.
      erewrite bind_ok by apply read_ok.
      erewrite bind_ok by exact Hmerge.
      rewrite Hfn.
      destruct (decide (_ = Standalone.preactRootComponentName P));
        [contradiction|].
      rewrite Hbuiltin.
      destruct (decide (_ = js "Widget")); [|contradiction].
      rewrite Hcp.
      erewrite bind_ok.
      2:{ etransitivity;
            [apply try_catch_throw, bind_throw; exact Hthrow | reflexivity]. }
      reflexivity.
    + intros Hcall.
      assert (Hfr : frames None
                (Standalone.serializeProps P fuel
                   (Some (buildComponentId
                      (obj_get (obj_delete (own_entries (arrays st)
                                  (get node (js "props"))) (js "children"))
                         (js "id"))
                      (obj_get (obj_delete (own_entries (arrays st)
                                  (get node (js "props"))) (js "children"))
                         (js "src")) pid)) pid
                   (obj_get (obj_delete (own_entries (arrays st)
                               (get node (js "props"))) (js "children"))
                      (js "props")))).
      { apply standalone_frames_serializeProps_with. intros v n pid'.
        by apply standalone_frames_serializeNode. }
      apply Hfr in Hthrow. apply (frame_except_lookup _ _ a Hthrow). lia.
Qed.

Lemma failed_component_is_skipped_witness :
  (exists e st2,
     Composed.serializeNode sample_params 3 (bad_component Widget) 0 (js "p")
       empty_context
     = (Ok (placeholder (js "a.near/widget/Bad##b##p")),
        log (console_warn_with (dispatch_failed (js "p")) e
               (VObj [(js "icon", rendered Card [(js "size", VNum 1)])])) st2)
     /\ arrays st2 !! 0 = Some [])
  /\ (exists e st2,
        Standalone.serializeNode strict_params 3 (bad_component Widget) 0
          (js "p") empty_context
        = (Ok (placeholder (js "a.near/widget/Bad##b##p")),
           log (console_warn_with (dispatch_failed (js "p")) e
                  (VObj [(js "icon", rendered Card [(js "size", VNum 1)])]))
             st2)
        /\ arrays st2 !! 0 = Some []).
Proof.
  destruct (failed_component_is_skipped strict_params sample_params 2
              (bad_component Widget) 0 (js "p") empty_context empty_context)
    as [Hcomposed Hstandalone];
    [reflexivity | reflexivity | reflexivity | cbn; lia | reflexivity
    | reflexivity |].
  split.
  - edestruct Hcomposed as [Hrun Hacc];
      [reflexivity | vm_compute; reflexivity|].
    do 2 eexists. split; [exact Hrun | exact Hacc].
  - edestruct Hstandalone as [Hrun Hacc];
      [discriminate | reflexivity | reflexivity | vm_compute; reflexivity|].
    do 2 eexists. split; [exact Hrun|]. apply Hacc.
    intros fn arg st r st' [= <- <-]. apply frame_except_refl.
Defined.

(** The sibling of a failed component is serialized and registered: of
    [<div><Component bad /><Component good /></div>] the accumulator gets
    the entry of the good one only, and the tree has both placeholders. *)
Lemma failed_component_keeps_siblings :
  exists v st',
    Composed.serializeNode sample_params 4 (bad_then_good Component) 0 (js "p")
      empty_context = (Ok v, st')
    /\ get (get v (js "props")) (js "children")
       = VArr [placeholder (js "a.near/widget/Bad##b##p");
               placeholder (js "a.near/widget/Good##g##p")]
    /\ (fun c => get c (js "componentId")) <$> default [] (arrays st' !! 0)
       = [VStr (js "a.near/widget/Good##g##p")]
    /\ length (console st') = 1.
Proof. do 2 eexists. split_and!; vm_compute; reflexivity. Qed.

(** ** Serializing a rendered tree *)

Lemma is_leaf_not_node v :
  is_leaf v = true ->
  get v (js "props") = VUndefined
  /\ has v (js "childComponents") = false
  /\ (forall h, elements h v = None)
  /\ negb (truthy v) || negb (is_object v) = true.
Proof.
  destruct v as [| |[]|n|[|]| | | | | |]; try discriminate; intros _;
    split_and!; try done. apply orb_true_r.
Qed.

Lemma rendered_node type props :
  get (rendered type props) (js "type") = type
  /\ get (rendered type props) (js "props") = VObj props
  /\ has (rendered type props) (js "childComponents") = false
  /\ (forall h, elements h (rendered type props) = None)
  /\ negb (truthy (rendered type props))
     || negb (is_object (rendered type props)) = false.
Proof. done. Qed.

Lemma vnode_quiet Q t :
  well_formed Q t ->
  has (vnode t) (js "childComponents") = false
  /\ forall h, elements h (vnode t) = None.
Proof.
  intros [v Hv| | |].
  - apply is_leaf_not_node in Hv as (_ & ? & ? & _). done.
  - done.
  - done.
  - done.
Qed.

Lemma vnode_props Q t :
  well_formed Q t ->
  (is_leaf (vnode t) = true /\ entries_of (js "") t = [] /\ exists v, t = Leaf v)
  \/ (truthy (get (vnode t) (js "props")) = true /\ truthy (vnode t) = true).
Proof.
  intros [v Hv| | |]; [left | right; done..].
  split_and!; [exact Hv | reflexivity | by exists v].
Qed.

Lemma flat_no_arrays h xs :
  Forall (fun x => elements h x = None) xs -> flat h xs = xs.
Proof.
  unfold flat. induction 1 as [|x xs Hx _ IH]; [reflexivity|].
  cbn [fmap list_fmap concat]. rewrite Hx. cbn [default app].
  f_equal. exact IH.
Qed.

Lemma merge_fold_quiet (l : list value) a st :
  Forall (fun c => has c (js "childComponents") = false) l ->
  foldM (fun (_ : unit) (child : value) =>
    if truthy child && is_object child && has child (js "childComponents")
    then
      let* h := read arrays in
      match elements h (get child (js "childComponents")) with
      | Some l => foldM (fun (_ : unit) c => push a c) tt l
      | None => throw TypeError
      end
    else ret tt) tt l st = (Ok tt, st).
Proof.
  induction 1 as [|c l Hc _ IH]; [reflexivity|].
  rewrite foldM_cons, Hc, andb_false_r. exact IH.
Qed.

Lemma merge_bubbled_quiet h children a st :
  quiet children -> merge_bubbled (unify h children) a st = (Ok tt, st).
Proof.
  intros Hq. unfold merge_bubbled. erewrite bind_ok by apply read_ok.
  destruct children; cbn [quiet] in Hq; try contradiction;
    cbn [unify elements default]; apply merge_fold_quiet;
    solve [exact Hq | by repeat constructor].
Qed.

Lemma merge_bubbled_kids Q kids a st :
  Forall (well_formed Q) kids ->
  merge_bubbled (VArr (vnode <$> kids)) a st = (Ok tt, st).
Proof.
  intros Hkids. unfold merge_bubbled. erewrite bind_ok by apply read_ok.
  cbn [elements default]. apply merge_fold_quiet, Forall_fmap.
  eapply Forall_impl; [exact Hkids|]. intros k Hk. cbn.
  by destruct (vnode_quiet Q k Hk).
Qed.

Lemma obj_get_delete_other (o : object) d k :
  k <> d -> obj_get (obj_delete o d) k = obj_get o k.
Proof.
  intros H. unfold obj_get. rewrite obj_lookup_delete.
  by destruct (decide (k = d)).
Qed.

Lemma plain_props_delete (o : object) d :
  plain_props o -> plain_props (obj_delete o d).
Proof.
  unfold plain_props, obj_delete. intros H.
  apply Forall_forall. intros e [_ He]%list_elem_of_filter.
  by eapply Forall_forall in H.
Qed.




Lemma arrays_set_callbacks f st : arrays (set_callbacks f st) = arrays st.
Proof. reflexivity. Qed.

Lemma arrays_log e st : arrays (log e st) = arrays st.
Proof. reflexivity. Qed.

Lemma push_ok a v st :
  push a v st = (Ok tt, set_arrays (alter (fun l => l ++ [v]) a) st).
Proof. reflexivity. Qed.

Lemma height_kids kids fuel :
  S (max_list (height <$> kids)) < S fuel ->
  Forall (fun k => height k < fuel) kids.
Proof.
  intros H. apply Forall_forall. intros k Hk.
  assert (height k <= max_list (height <$> kids)); [|lia].
  apply max_list_elem_of_le, list_elem_of_fmap. by exists k.
Qed.

(** A nested component with plain props: one entry is pushed and the
    placeholder is returned. *)
Lemma serialize_nested Q fuel marker props a pid st l :
  well_formed Q (Nested marker props) -> arrays st !! a = Some l ->
  exists st',
    Composed.serializeNode Q (S fuel) (vnode (Nested marker props)) a pid st
    = (Ok (placeholder (component_id pid props)), st')
    /\ arrays st' !! a = Some (l ++ [child_entry pid props]).
Proof.
  intros Hwf Hl. inversion Hwf as [| | |? ? Hfn Hrec Hq Hcp]; subst.
  cbn [Composed.serializeNode vnode] in *.
  destruct (rendered_node marker props) as (Htype & Hprops & _ & _ & ->).
  erewrite bind_ok by apply props_of_ok.
  erewrite bind_ok by apply read_ok.
  erewrite bind_ok by (apply merge_bubbled_quiet; exact Hq).
  rewrite Htype, Hprops, Hfn.
  apply orb_true_iff in Hrec.
  assert (Hneg : negb (Composed.isWidget Q marker)
                 && negb (Composed.isComponent Q marker) = false).
  { destruct Hrec as [-> | ->]; [reflexivity | apply andb_false_r]. }
  rewrite Hneg. cbn [own_entries].
  set (st1 := if Composed.isWidget Q marker
              then log (console_warn Composed.widget_deprecated) st else st).
  erewrite bind_ok.
  2:{ instantiate (1 := st1). instantiate (1 := tt). subst st1.
      destruct (Composed.isWidget Q marker); reflexivity. }
  assert (Hl1 : arrays st1 !! a = Some l).
  { subst st1. by destruct (Composed.isWidget Q marker). }
  unfold Composed.serializeChildComponent_with.
  rewrite !obj_get_delete_other by discriminate.
  fold (component_id pid props).
  destruct Hcp as [Hfalsy | (o & Ho & Hplain)].
  - rewrite Hfalsy.
    erewrite bind_ok; [|erewrite bind_ok; [reflexivity|]; reflexivity].
    cbn [fst snd truthy]. erewrite bind_ok by apply push_ok.
    eexists. split; [reflexivity|].
    rewrite arrays_set_arrays, list_lookup_alter, Hl1.
    cbn [fmap option_fmap option_map].
    rewrite decide_True by done. do 3 f_equal. unfold child_entry.
    destruct (obj_get props (js "props")); try discriminate Hfalsy; reflexivity.
  - rewrite Ho. cbn [truthy].
    erewrite bind_ok.
    2:{ erewrite bind_ok; [reflexivity|]. unfold try_catch.
        erewrite bind_ok
          by (apply composed_serializeProps_with_plain; exact Hplain).
        reflexivity. }
    cbn [fst snd truthy]. erewrite bind_ok by apply push_ok.
    eexists. split; [reflexivity|].
    rewrite arrays_set_arrays, list_lookup_alter, arrays_set_callbacks, Hl1.
    cbn [fmap option_fmap option_map].
    rewrite decide_True by done. do 3 f_equal. unfold child_entry.
    rewrite Ho. reflexivity.
Qed.

Lemma obj_delete_head (o : object) d v :
  obj_delete ((d, v) :: o) d = obj_delete o d.
Proof.
  unfold obj_delete. rewrite filter_cons. cbn [fst].
  by destruct (decide (d <> d)).
Qed.





Lemma sample_tree_well_formed : well_formed sample_params sample_tree.
Proof.
  constructor.
  { constructor; [|constructor]. cbn [fst snd].
    split_and!; [reflexivity | discriminate..]. }
  constructor.
  { constructor; [constructor|]. by constructor. }
  constructor.
  { constructor; [reflexivity | reflexivity | by constructor|].
    right. eexists. split; [reflexivity|].
    constructor; [|constructor]. cbn [fst snd].
    split_and!; [reflexivity | discriminate..]. }
  constructor; [|constructor].
  constructor; [reflexivity | reflexivity | by constructor|].
  by left.
Qed.




(** ** The composed [deserializeProps] *)

(** [deserializeProps] of [composeSerializationMethods] is the one of
    serialize.ts at the parent id of the context: what is shown above for a
    root ([parentContainerId] is [null]) holds for it in a root context. *)
Lemma composed_deserializeProps_root Q componentId props st :
  Composed.parentContainerId Q = None ->
  Composed.deserializeProps Q componentId props st
  = deserializeProps None componentId props st.
Proof. intros H. unfold Composed.deserializeProps. by rewrite H. Qed.

(** * Further properties of the code *)

(** ** The whitespace escaping, both ways *)

Lemma replace_unit_not_elem (c d : N) (s : jsstring) :
  c <> d -> c ∉ replace_unit c d s.
Proof.
  intros Hcd. unfold replace_unit. intros H.
  apply list_elem_of_fmap in H as (x & Hx & _).
  destruct (N.eqb_spec x c); congruence.
Qed.

Lemma replace_unit_keeps_absent (a c d : N) (s : jsstring) :
  a <> d -> a ∉ s -> a ∉ replace_unit c d s.
Proof.
  intros Had Ha. unfold replace_unit. intros H.
  apply list_elem_of_fmap in H as (x & Hx & Hin).
  destruct (N.eqb_spec x c); [congruence | by subst].
Qed.

(** X1. What [encodeJsonString] returns holds no newline and no tab,
    whatever the string: its result survives a transport that collapses
    whitespace. *)
Theorem encodeJsonString_has_no_newline_or_tab (s : jsstring) :
  (LF ∉ encodeJsonString s) /\ (TAB ∉ encodeJsonString s).
Proof.
  unfold encodeJsonString. destruct s as [|x s].
  { split; apply not_elem_of_nil. }
  split.
  - apply replace_unit_keeps_absent; [discriminate|].
    apply replace_unit_not_elem. discriminate.
  - apply replace_unit_not_elem. discriminate.
Qed.

(** X2. What [decodeJsonString] returns holds neither U+2063 nor U+2064. *)
Theorem decodeJsonString_has_no_stand_in (s : jsstring) :
  (INVISIBLE_SEPARATOR ∉ decodeJsonString s)
  /\ (INVISIBLE_PLUS ∉ decodeJsonString s).
Proof.
  unfold decodeJsonString. destruct s as [|x s].
  { split; apply not_elem_of_nil. }
  split.
  - apply replace_unit_keeps_absent; [discriminate|].
    apply replace_unit_not_elem. discriminate.
  - apply replace_unit_not_elem. discriminate.
Qed.

Lemma encode_decode_units (s : jsstring) :
  LF ∉ s -> TAB ∉ s ->
  replace_unit TAB INVISIBLE_PLUS
    (replace_unit LF INVISIBLE_SEPARATOR
       (replace_unit INVISIBLE_PLUS TAB
          (replace_unit INVISIBLE_SEPARATOR LF s))) = s.
Proof.
  induction s as [|x s IH]; intros Hl Ht; [reflexivity|].
  apply not_elem_of_cons in Hl as [Hxl Hl].
  apply not_elem_of_cons in Ht as [Hxt Ht].
  rewrite !replace_unit_cons, IH by assumption. f_equal.
  destruct (N.eqb_spec x INVISIBLE_SEPARATOR) as [->|Hs]; [reflexivity|].
  destruct (N.eqb_spec x INVISIBLE_PLUS) as [->|Hp]; [reflexivity|].
  destruct (N.eqb_spec x LF) as [|_]; [congruence|].
  destruct (N.eqb_spec x TAB) as [|_]; [congruence|].
  reflexivity.
Qed.

(** X3. The round trip in the other direction: encoding a decoded string
    gives the string back when it holds no newline and no tab, which is
    what every encoded string is like. *)
Theorem encode_decode_roundtrip (s : jsstring) :
  LF ∉ s -> TAB ∉ s -> encodeJsonString (decodeJsonString s) = s.
Proof.
  intros Hl Ht. destruct s as [|x s]; [reflexivity|].
  unfold decodeJsonString.
  pose proof (encode_decode_units (x :: s) Hl Ht) as H.
  rewrite !replace_unit_cons in *.
  unfold encodeJsonString. exact H.
Qed.

Lemma encode_decode_roundtrip_witness :
  encodeJsonString
    (decodeJsonString (js "a" ++ [INVISIBLE_SEPARATOR; INVISIBLE_PLUS] ++ js "b"))
  = js "a" ++ [INVISIBLE_SEPARATOR; INVISIBLE_PLUS] ++ js "b".
Proof.
  apply encode_decode_roundtrip; vm_compute;
    intros H; repeat (apply elem_of_cons in H as [H|H]; [discriminate H|]);
    by apply elem_of_nil in H.
Defined.

Lemma replace_unit_lookup (c d : N) (s : jsstring) (i : nat) :
  replace_unit c d s !! i
  = (fun x => if (x =? c)%N then d else x) <$> (s !! i).
Proof. unfold replace_unit. apply list_lookup_fmap. Qed.

(** X4. Escaping works code unit by code unit: [encodeJsonString] keeps the
    length of the string and every code unit that is not a newline or a
    tab stays where it is. *)
Theorem encodeJsonString_changes_whitespace_only (s : jsstring) :
  length (encodeJsonString s) = length s
  /\ forall i x, s !! i = Some x -> x <> LF -> x <> TAB ->
       encodeJsonString s !! i = Some x.
Proof.
  unfold encodeJsonString. destruct s as [|y s].
  { split; [reflexivity | intros i x H; by rewrite lookup_nil in H]. }
  split.
  - unfold replace_unit. by rewrite !length_fmap.
  - intros i x Hi Hl Ht. rewrite !replace_unit_lookup, Hi. cbn.
    destruct (N.eqb_spec x LF); [contradiction|].
    destruct (N.eqb_spec x TAB); [contradiction|]. reflexivity.
Qed.

(** ** [deserializeProps]: what it returns, what it rejects *)

Lemma deserialize_entry_state pc cid props cc e st r st' :
  deserialize_entry pc cid props cc e st = (r, st') -> st' = st.
Proof.
  unfold deserialize_entry. destruct (nullish e.2); [by intros [= _ <-]|].
  destruct (truthy _); by intros [= _ <-].
Qed.

Lemma deserialize_fold_state pc cid props entries cc st r st' :
  foldM (deserialize_entry pc cid props) cc entries st = (r, st') -> st' = st.
Proof.
  revert cc. induction entries as [|e entries IH]; intros cc.
  - by intros [= _ <-].
  - rewrite foldM_cons. unfold bind.
    destruct (deserialize_entry _ _ _ _ _ _) as [[cc'|err|] st1] eqn:E;
      apply deserialize_entry_state in E as ->;
      [apply IH | by intros [= _ <-]..].
Qed.

(** X5. [deserializeProps] reads the container and writes nothing: however
    it ends (a result, a [TypeError], a duplicate key error), the
    CallbackMap, the RequestMap, the arrays and the console are as they
    were. *)
Theorem deserializeProps_leaves_the_context pc cid props st r st' :
  deserializeProps pc cid props st = (r, st') -> st' = st.
Proof.
  rewrite deserializeProps_unfold. destruct (nullish props); [by intros [= _ <-]|].
  destruct (foldM _ _ _ _) as [[cc|e|] st1] eqn:E;
    apply deserialize_fold_state in E as ->; by intros [= _ <-].
Qed.

Lemma deserializeProps_leaves_the_context_witness :
  empty_context = empty_context.
Proof.
  exact (deserializeProps_leaves_the_context (Some (js "p")) (js "c##x##p")
           clashing_props empty_context _ empty_context eq_refl).
Defined.

Lemma obj_delete_absent (o : object) k :
  obj_lookup o k = None -> obj_delete o k = o.
Proof.
  unfold obj_delete. induction o as [|[k0 v0] o IH]; [reflexivity|].
  cbn [obj_lookup]. destruct (decide (k0 = k)); [discriminate|]. intros H.
  rewrite filter_cons. cbn [fst].
  destruct (decide (k0 <> k)); [by rewrite IH | contradiction].
Qed.

(** X6. Props that carry no [__componentcallbacks] come back as they are:
    the same entries in the same order, and nothing is thrown. *)
Theorem deserializeProps_without_callbacks pc cid (o : object) st :
  obj_lookup o COMPONENT_CALLBACKS = None ->
  deserializeProps pc cid (VObj o) st = (Ok (VObj o), st).
Proof.
  intros Hnone. rewrite deserializeProps_unfold. cbn [nullish get own_entries].
  unfold obj_get. fold COMPONENT_CALLBACKS. rewrite Hnone.
  cbn [default own_entries foldM ret].
  by rewrite obj_delete_absent.
Qed.

Lemma deserializeProps_without_callbacks_witness :
  deserializeProps None (js "c##x##p")
    (VObj [(js "title", VStr (js "hello"));
           (js "__domcallbacks",
             VObj [(js "onClick",
                     VObj [(js "__componentMethod", VStr (js "onClick::f::p"))])])])
    empty_context
  = (Ok (VObj [(js "title", VStr (js "hello"));
               (js "__domcallbacks",
                 VObj [(js "onClick",
                         VObj [(js "__componentMethod",
                                 VStr (js "onClick::f::p"))])])]),
     empty_context).
Proof. apply deserializeProps_without_callbacks. reflexivity. Defined.


Lemma elem_of_unique_key (o : object) k v v' :
  NoDup o.*1 -> (k, v) ∈ o -> (k, v') ∈ o -> v = v'.
Proof.
  induction o as [|[k0 v0] o IH]; intros Hnd H1 H2.
  { by apply elem_of_nil in H1. }
  cbn [fmap list_fmap fst] in Hnd. apply NoDup_cons in Hnd as [Hfresh Hnd].
  assert (Hkey : forall w, (k0, w) ∈ o -> False).
  { intros w Hw. apply Hfresh, list_elem_of_fmap. by exists (k0, w). }
  apply elem_of_cons in H1 as [E1|H1]; apply elem_of_cons in H2 as [E2|H2].
  - congruence.
  - injection E1 as -> ->. by destruct (Hkey _ H2).
  - injection E2 as -> ->. by destruct (Hkey _ H1).
  - by apply IH.
Qed.







(** ** The invoker *)

Lemma deserializeProps_invoker_of pc cid props st r st' methodName :
  deserializeProps pc cid props st = (Ok r, st') ->
  methodName ∈ (own_entries (arrays st)
                  (get props (js "__componentcallbacks"))).*1 ->
  exists method, get r methodName = VInvoker pc cid method.
Proof.
  intros H Hin.
  apply deserializeProps_ok_inv in H as (-> & cc & -> & Hv & Hk & _).
  apply Hk in Hin.
  assert (exists v, obj_lookup (reverse cc) methodName = Some v) as [v Hrev].
  { apply obj_lookup_is_Some. by rewrite fmap_reverse, elem_of_reverse. }
  apply obj_lookup_elem_of in Hrev as Hel. rewrite elem_of_reverse in Hel.
  destruct (Hv _ _ Hel) as [m ->].
  exists m. cbn [get]. unfold obj_get. by rewrite obj_lookup_spread, Hrev.
Qed.

(** X9. The root test of the invoker is [!parentContainerId]: a container
    whose parent id is the empty string is a root like one whose parent id
    is [null]. Every function that [deserializeProps] built there, called
    with any arguments, writes the root error to the console, returns
    [undefined], and asks for no request id, builds no request and posts
    nothing. *)
Theorem empty_parent_id_is_a_root
    E componentId props st r st' methodName args st1 :
  deserializeProps (Some []) componentId props st = (Ok r, st') ->
  methodName ∈ (own_entries (arrays st)
                  (get props (js "__componentcallbacks"))).*1 ->
  call_invoker E (get r methodName) args st1
  = (Ok VUndefined, log root_error st1).
Proof.
  intros H Hin.
  by destruct (deserializeProps_invoker_of _ _ _ _ _ _ _ H Hin) as [m ->].
Qed.

Lemma empty_parent_id_is_a_root_witness :
  call_invoker sample_collaborators
    (get (VObj [(js "title", VStr (js "hello"));
                (js "onSave",
                  VInvoker (Some []) (js "c##x##p")
                    (VStr (js "onSave::c##x##p::p")))])
       (js "onSave")) [VNum 1] empty_context
  = (Ok VUndefined, log root_error empty_context).
Proof.
  apply (empty_parent_id_is_a_root sample_collaborators (js "c##x##p")
           sample_props empty_context _ empty_context (js "onSave")).
  - vm_compute. reflexivity.
  - vm_compute. left.
Defined.

(** X10. In a container with a parent, a call of an invoker asks for a
    request id, stores the request that [buildRequest] made under that id,
    and then posts one invocation that carries the call's arguments, the
    [__componentMethod] of the marker, the request id, the component id and
    the parent id as target; it returns the promise of the request found
    under the id after the post. The request is in the RequestMap before
    the post is made, so it stays there when the post throws. *)
Theorem invoker_stores_the_request_then_posts
    E parent componentId method args st requestId st1 request st2 :
  parent <> [] ->
  randomUUID E st = (Ok requestId, st1) ->
  buildRequest E st1 = (Ok request, st2) ->
  let stored := set_requests (insert requestId request) st2 in
  let message :=
    {| pm_args := args; pm_componentId := componentId; pm_method := method;
       pm_requestId := requestId; pm_targetId := parent |} in
  requests stored !! requestId = Some request
  /\ (forall st3 pending,
        postCallbackInvocationMessage E message stored = (Ok tt, st3) ->
        requests st3 !! requestId = Some pending ->
        call_invoker E (VInvoker (Some parent) componentId method) args st
        = (Ok (promise pending), st3))
  /\ (forall e st3,
        postCallbackInvocationMessage E message stored = (Throw e, st3) ->
        call_invoker E (VInvoker (Some parent) componentId method) args st
        = (Throw e, st3)).
Proof.
  intros Hp Hid Hreq. cbv zeta. split; [apply lookup_insert_eq|].
  assert (Htruthy : truthy (of_option (Some parent)) = true).
  { destruct parent; [contradiction | reflexivity]. }
  split.
  - intros st3 pending Hpost Hpending. cbn [call_invoker]. unfold invoke.
    rewrite Htruthy. cbn [negb default].
    erewrite bind_ok by exact Hid. erewrite bind_ok by exact Hreq.
    erewrite bind_ok by reflexivity. erewrite bind_ok by exact Hpost.
    erewrite bind_ok by apply read_ok. by rewrite Hpending.
  - intros e st3 Hpost. cbn [call_invoker]. unfold invoke.
    rewrite Htruthy. cbn [negb default].
    erewrite bind_ok by exact Hid. erewrite bind_ok by exact Hreq.
    erewrite bind_ok by reflexivity. by erewrite bind_throw by exact Hpost.
Qed.

Lemma invoker_stores_the_request_then_posts_witness :
  call_invoker sample_collaborators
    (VInvoker (Some (js "p")) (js "c##x##p") (VStr (js "onSave::c##x##p::p")))
    [VNum 1; VStr (js "two")] empty_context
  = (Ok (VPromise sample_uuid),
     set_requests
       (insert sample_uuid
          {| promise := VPromise sample_uuid; rejecter := VUndefined;
             resolver := VUndefined |}) empty_context).
Proof.
  destruct (invoker_stores_the_request_then_posts sample_collaborators
              (js "p") (js "c##x##p") (VStr (js "onSave::c##x##p::p"))
              [VNum 1; VStr (js "two")] empty_context sample_uuid empty_context
              {| promise := VPromise sample_uuid; rejecter := VUndefined;
                 resolver := VUndefined |} empty_context)
    as (_ & Hok & _); [discriminate | reflexivity | reflexivity|].
  apply (Hok _ {| promise := VPromise sample_uuid; rejecter := VUndefined;
                  resolver := VUndefined |}); [reflexivity|].
  apply lookup_insert_eq.
Defined.

(** ** The shape of serialized props *)


Section markers.

Context (cid : option jsstring) (pid : jsstring).

Lemma markers_fold_other (o m : object) k :
  (forall f, (k, f) ∈ o -> is_function f = false) ->
  obj_lookup (foldl (marker_step cid pid) m o) k = obj_lookup m k.
Proof.
  revert m. induction o as [|[k0 v0] o IH]; intros m Hk; [reflexivity|].
  cbn [foldl]. rewrite IH by (intros f Hf; apply Hk; by right).
  unfold marker_step. cbn [fst snd]. destruct (is_function v0) eqn:Hfn; [|reflexivity].
  rewrite obj_lookup_set. destruct (decide (k0 = k)) as [->|]; [|reflexivity].
  rewrite (Hk v0) in Hfn by left. discriminate.
Qed.

Lemma markers_fold_value (o m : object) k f :
  NoDup o.*1 -> (k, f) ∈ o -> is_function f = true ->
  obj_lookup (foldl (marker_step cid pid) m o) k
  = Some (marker_of cid (fnKey_of k cid f pid) pid).
Proof.
  revert m. induction o as [|[k0 v0] o IH]; intros m Hnd Hin Hfn.
  { by apply elem_of_nil in Hin. }
  cbn [fmap list_fmap fst] in Hnd. apply NoDup_cons in Hnd as [Hfresh Hnd].
  cbn [foldl]. apply elem_of_cons in Hin as [[= <- <-]|Hin].
  - rewrite markers_fold_other.
    + unfold marker_step. cbn [fst snd]. rewrite Hfn, obj_lookup_set.
      by rewrite decide_True.
    + intros f' Hf'. destruct Hfresh. apply list_elem_of_fmap. by exists (k, f').
  - by apply IH.
Qed.


Lemma markers_fold_keys_mono (o m : object) k :
  k ∈ m.*1 -> k ∈ (foldl (marker_step cid pid) m o).*1.
Proof.
  revert m. induction o as [|[k0 v0] o IH]; intros m Hk; [exact Hk|].
  cbn [foldl]. apply IH. unfold marker_step at 1. cbn [fst snd].
  destruct (is_function v0); [|exact Hk].
  rewrite obj_set_keys. by right.
Qed.



Lemma plain_step_slot decode newProps e :
  slot_shape cid newProps ->
  (is_function e.2 = false -> e.1 <> family_of cid) ->
  slot_shape cid (plain_step decode cid pid newProps e)
  /\ slot cid (plain_step decode cid pid newProps e)
     = marker_step cid pid (slot cid newProps) e.
Proof.
  intros Hshape He. unfold plain_step, marker_step, slot, slot_shape.
  destruct (is_function e.2) eqn:Hfn.
  - unfold obj_get in *.
    destruct Hshape as [Hnone|[m Hm]].
    + rewrite Hnone. cbn [default from_option id].
      rewrite obj_lookup_set, decide_True by done.
      split; [right; eauto | reflexivity].
    + rewrite Hm. cbn [default from_option id].
      rewrite obj_lookup_set, decide_True by done.
      split; [right; eauto | reflexivity].
  - unfold obj_get. rewrite obj_lookup_set.
    rewrite decide_False by (by apply He). done.
Qed.

Lemma plain_fold_slot decode (o newProps : object) :
  plain_props o -> slot_shape cid newProps ->
  slot_shape cid (foldl (plain_step decode cid pid) newProps o)
  /\ slot cid (foldl (plain_step decode cid pid) newProps o)
     = foldl (marker_step cid pid) (slot cid newProps) o.
Proof.
  revert newProps. induction o as [|e o IH]; intros newProps Hplain Hshape.
  { done. }
  apply plain_props_cons in Hplain as [(_ & H1 & H2) Hplain].
  cbn [foldl].
  destruct (plain_step_slot decode newProps e Hshape) as [Hshape' Hslot'].
  { intros _. destruct (family_of_cases cid) as [-> | ->]; assumption. }
  destruct (IH _ Hplain Hshape') as [Hs Hv]. split; [exact Hs|].
  by rewrite Hv, Hslot'.
Qed.

(** With a function-valued entry the marker slot of the result holds the
    markers. *)
Lemma plain_result_markers decode (o : object) k f :
  plain_props o -> (k, f) ∈ o -> is_function f = true ->
  obj_get (plain_result decode cid pid o) (family_of cid)
  = VObj (markers_of cid pid o).
Proof.
  intros Hplain Hin Hfn.
  destruct (plain_fold_slot decode o [] Hplain) as [Hshape Hslot]; [by left|].
  fold (plain_result decode cid pid o) in Hshape, Hslot.
  change (foldl (marker_step cid pid) (slot cid []) o)
    with (markers_of cid pid o) in Hslot.
  unfold slot in Hslot. unfold obj_get in *.
  destruct Hshape as [Hnone|[m Hm]].
  - rewrite Hnone in Hslot. cbn [default from_option id] in Hslot.
    assert (Hkey : k ∈ (markers_of cid pid o).*1).
    { apply list_elem_of_split in Hin as (o1 & o2 & ->).
      unfold markers_of. rewrite foldl_app. cbn [foldl]. fold (marker_step cid pid).
      apply markers_fold_keys_mono. unfold marker_step at 1. cbn [fst snd].
      rewrite Hfn, obj_set_keys. by left. }
    rewrite <- Hslot in Hkey. by apply elem_of_nil in Hkey.
  - rewrite Hm in *. cbn [default from_option id] in *. by rewrite Hslot.
Qed.

End markers.

Lemma other_family_neq cid : other_family cid <> family_of cid.
Proof. unfold other_family, family_of. by destruct (truthy _). Qed.

Lemma other_family_cases cid :
  other_family cid = COMPONENT_CALLBACKS \/ other_family cid = DOM_CALLBACKS.
Proof. unfold other_family. destruct (truthy _); auto. Qed.

(** A name that only function-valued entries use is never set at the top
    level of the result. *)
Lemma plain_fold_lookup_skip decode cid pid (o newProps : object) k :
  k <> family_of cid ->
  (forall v, (k, v) ∈ o -> is_function v = true) ->
  obj_lookup (foldl (plain_step decode cid pid) newProps o) k
  = obj_lookup newProps k.
Proof.
  intros Hk. revert newProps.
  induction o as [|[k0 v0] o IH]; intros newProps Hfn; [reflexivity|].
  cbn [foldl]. rewrite IH by (intros v Hv; apply (Hfn v); by right).
  unfold plain_step. cbn [fst snd].
  destruct (is_function v0) eqn:Hv0.
  - destruct (obj_get newProps (family_of cid));
      rewrite obj_lookup_set; by rewrite decide_False by done.
  - rewrite obj_lookup_set. destruct (decide (k0 = k)) as [->|]; [|reflexivity].
    rewrite (Hfn v0) in Hv0 by left. discriminate.
Qed.

Lemma on_string_id v : on_string (fun s => s) v = v.
Proof. by destruct v. Qed.

(** The result of [serializeProps] on plain props with distinct names. *)
Lemma plain_result_shape decode cid pid (o : object) :
  plain_props o -> NoDup o.*1 ->
  obj_lookup (plain_result decode cid pid o) (other_family cid) = None
  /\ (forall k v, (k, v) ∈ o -> is_function v = false ->
        obj_lookup (plain_result decode cid pid o) k = Some (on_string decode v))
  /\ (forall k f, (k, f) ∈ o -> is_function f = true ->
        obj_lookup (plain_result decode cid pid o) k = None
        /\ obj_get (plain_result decode cid pid o) (family_of cid)
           = VObj (markers_of cid pid o)
        /\ obj_lookup (markers_of cid pid o) k
           = Some (marker_of cid (fnKey_of k cid f pid) pid)).
Proof.
  intros Hplain Hnd. split; [|split].
  - unfold plain_result. rewrite plain_fold_lookup_skip; [reflexivity| |].
    + apply other_family_neq.
    + intros v Hv. eapply Forall_forall in Hplain; [|exact Hv].
      destruct Hplain as (_ & H1 & H2). cbn [fst] in H1, H2.
      destruct (other_family_cases cid); congruence.
  - intros k v Hin Hfn. by apply plain_fold_lookup_value.
  - intros k f Hin Hfn. split; [|split].
    + unfold plain_result. rewrite plain_fold_lookup_skip; [reflexivity| |].
      * eapply Forall_forall in Hplain; [|exact Hin].
        destruct Hplain as (_ & H1 & H2). cbn [fst] in H1, H2.
        destruct (family_of_cases cid); congruence.
      * intros v Hv. by rewrite (elem_of_unique_key o k v f).
    + by eapply plain_result_markers.
    + by apply markers_fold_value.
Qed.

(** X11. What [serializeProps] returns for props that hold no rendered node:
    every function-valued prop is gone from the top level and has its marker,
    under its own name, in one marker object: [__componentcallbacks] when a
    component id is given, [__domcallbacks] otherwise; the other marker
    object is not created; every other prop keeps its value. *)
Theorem serializeProps_files_functions_under_one_marker
    P fuel cid pid (o : object) st :
  plain_props o -> NoDup o.*1 ->
  exists r st',
    Composed.serializeProps P fuel cid pid (VObj o) st = (Ok (VObj r), st')
    /\ obj_lookup r (other_family cid) = None
    /\ (forall k v, (k, v) ∈ o -> is_function v = false ->
          obj_lookup r k = Some v)
    /\ (forall k f, (k, f) ∈ o -> is_function f = true ->
          obj_lookup r k = None
          /\ get (obj_get r (family_of cid)) k
             = marker_of cid (fnKey_of k cid f pid) pid).
Proof.
  intros Hplain Hnd.
  destruct (plain_result_shape (fun s => s) cid pid o Hplain Hnd)
    as (Hother & Hvalues & Hfns).
  eexists _, _. split; [by apply composed_serializeProps_plain|].
  split; [exact Hother|]. split.
  - intros k v Hin Hfn. rewrite (Hvalues k v Hin Hfn). by rewrite on_string_id.
  - intros k f Hin Hfn. destruct (Hfns k f Hin Hfn) as (Htop & Hslot & Hmarker).
    split; [exact Htop|]. rewrite Hslot. cbn [get]. unfold obj_get.
    by rewrite Hmarker.
Qed.

Lemma serializeProps_files_functions_under_one_marker_witness :
  exists r st',
    Composed.serializeProps sample_params 0 (Some (js "c##x##p")) (js "p")
      (VObj [(js "title", VStr (js "hello")); (js "onSave", save_handler)])
      empty_context
    = (Ok (VObj r), st')
    /\ obj_lookup r (other_family (Some (js "c##x##p"))) = None
    /\ (forall k v,
          (k, v) ∈ [(js "title", VStr (js "hello")); (js "onSave", save_handler)] ->
          is_function v = false -> obj_lookup r k = Some v)
    /\ (forall k f,
          (k, f) ∈ [(js "title", VStr (js "hello")); (js "onSave", save_handler)] ->
          is_function f = true ->
          obj_lookup r k = None
          /\ get (obj_get r (family_of (Some (js "c##x##p")))) k
             = marker_of (Some (js "c##x##p"))
                 (fnKey_of k (Some (js "c##x##p")) f (js "p")) (js "p")).
Proof.
  apply serializeProps_files_functions_under_one_marker.
  - repeat constructor; cbn; congruence.
  - cbn [fmap list_fmap fst]. apply NoDup_cons. split.
    + rewrite list_elem_of_singleton. vm_compute. congruence.
    + apply NoDup_singleton.
Defined.

(** ** From [serializeProps] to [deserializeProps] *)





(** ** State footprints *)

Section keeps.

Context (R : context -> context -> Prop).
Hypothesis R_refl : forall st, R st st.
Hypothesis R_trans : forall st1 st2 st3, R st1 st2 -> R st2 st3 -> R st1 st3.

Lemma keeps_ret {A} (x : A) : keeps R (ret x).
Proof using R_refl. intros st r st' [= <- <-]. apply R_refl. Qed.

Lemma keeps_throw {A} e : keeps R (@throw A e).
Proof using R_refl. intros st r st' [= <- <-]. apply R_refl. Qed.

Lemma keeps_out_of_fuel {A} : keeps R (@out_of_fuel A).
Proof using R_refl. intros st r st' [= <- <-]. apply R_refl. Qed.

Lemma keeps_read {A} (f : context -> A) : keeps R (read f).
Proof using R_refl. intros st r st' [= <- <-]. apply R_refl. Qed.

Lemma keeps_update f : (forall st, R st (f st)) -> keeps R (update f).
Proof. intros H st r st' [= <- <-]. apply H. Qed.

Lemma keeps_bind {A B} (m : M A) (k : A -> M B) :
  keeps R m -> (forall x, keeps R (k x)) -> keeps R (bind m k).
Proof using R_trans.
  intros Hm Hk st r st'. unfold bind.
  destruct (m st) as [[x|e|] st1] eqn:E; intros H.
  - eapply R_trans; [eapply Hm, E | eapply Hk, H].
  - injection H as <- <-. eapply Hm, E.
  - injection H as <- <-. eapply Hm, E.
Qed.

Lemma keeps_try_catch {A} (m : M A) (h : error -> M A) :
  keeps R m -> (forall e, keeps R (h e)) -> keeps R (try_catch m h).
Proof using R_trans.
  intros Hm Hh st r st'. unfold try_catch.
  destruct (m st) as [[x|e|] st1] eqn:E; intros H.
  - injection H as <- <-. eapply Hm, E.
  - eapply R_trans; [eapply Hm, E | eapply Hh, H].
  - injection H as <- <-. eapply Hm, E.
Qed.

Lemma keeps_mapM {A B} (f : A -> M B) xs :
  (forall x, keeps R (f x)) -> keeps R (mapM f xs).
Proof using R_refl R_trans.
  intros Hf. induction xs as [|x xs IH]; cbn [mapM].
  - apply keeps_ret.
  - apply keeps_bind; [apply Hf|]. intros y.
    apply keeps_bind; [apply IH|]. intros ys. apply keeps_ret.
Qed.

Lemma keeps_foldM {A B} (f : B -> A -> M B) b xs :
  (forall b x, keeps R (f b x)) -> keeps R (foldM f b xs).
Proof using R_refl R_trans.
  intros Hf. revert b. induction xs as [|x xs IH]; intros b; cbn [foldM].
  - apply keeps_ret.
  - apply keeps_bind; [apply Hf|]. intros b'. apply IH.
Qed.

Lemma keeps_spread v : keeps R (spread v).
Proof using R_refl. apply keeps_read. Qed.

Lemma keeps_Object_entries v : keeps R (Object_entries v).
Proof using R_refl.
  unfold Object_entries. destruct (nullish v);
    [apply keeps_throw | apply keeps_read].
Qed.

Lemma keeps_add_marker newProps family key marker :
  keeps R (add_marker newProps family key marker).
Proof using R_refl.
  unfold add_marker. destruct (truthy _); cbn [negb]; [|apply keeps_ret].
  destruct (obj_get newProps family);
    first [apply keeps_ret | apply keeps_throw].
Qed.

End keeps.

(** *** [serializeArgs] *)

Lemma only_registers_args_refl cid st : only_registers_args cid st st.
Proof. repeat split; auto. Qed.

Lemma only_registers_args_trans cid st1 st2 st3 :
  only_registers_args cid st1 st2 -> only_registers_args cid st2 st3 ->
  only_registers_args cid st1 st3.
Proof.
  intros (Hr & Ha & Hc & Hdom & Hnew) (Hr' & Ha' & Hc' & Hdom' & Hnew').
  repeat split; try congruence.
  - intros k Hk. auto.
  - intros k v Hk. destruct (Hnew' k v Hk) as [H|H]; [|by right].
    apply Hnew, H.
Qed.

Lemma only_registers_args_register cid f st :
  is_function f = true ->
  only_registers_args cid st (set_callbacks (insert (arg_fnKey cid f) f) st).
Proof.
  intros Hf. destruct st as [cb rq ar co]. unfold only_registers_args.
  cbn [set_callbacks callbacks requests arrays console].
  repeat split.
  - intros k Hk. destruct (decide (arg_fnKey cid f = k)) as [<-|Hne].
    + rewrite lookup_insert_eq. eauto.
    + by rewrite lookup_insert_ne.
  - intros k v. destruct (decide (arg_fnKey cid f = k)) as [<-|Hne].
    + rewrite lookup_insert_eq. intros [= <-]. by right.
    + rewrite lookup_insert_ne by done. by left.
Qed.

Lemma keeps_serializeArgs fuel args componentId :
  keeps (only_registers_args componentId)
    (serializeArgs fuel args componentId).
Proof.
  revert args. induction fuel as [|fuel IH]; intros args.
  { apply keeps_out_of_fuel. apply only_registers_args_refl. }
  pose proof (only_registers_args_refl componentId) as Hrefl.
  pose proof (only_registers_args_trans componentId) as Htrans.
  cbn [serializeArgs]. apply keeps_mapM; [done..|]. intros arg.
  destruct (truthy arg); cbn [negb]; [|by apply keeps_ret].
  apply keeps_bind; [done | by apply keeps_read |]. intros h.
  destruct (elements h arg).
  { apply keeps_bind; [done | apply IH | intros; by apply keeps_ret]. }
  destruct (is_object arg).
  { apply keeps_bind; [done | apply IH | intros; by apply keeps_ret]. }
  destruct (is_function arg) eqn:Hfn; cbn [negb]; [|by apply keeps_ret].
  apply keeps_bind; [done | | intros; by apply keeps_ret].
  apply keeps_update. intros st. by apply only_registers_args_register.
Qed.

(** X13. Whatever the arguments and however it ends, [serializeArgs] changes
    nothing but the CallbackMap: the RequestMap, the arrays and the console
    are as before, no key of the CallbackMap is removed, and each value it
    stored is a function, kept under its text followed by [::] and the
    component id. *)
Theorem serializeArgs_only_registers_functions
    fuel args componentId st r st' :
  serializeArgs fuel args componentId st = (r, st') ->
  requests st' = requests st
  /\ arrays st' = arrays st
  /\ console st' = console st
  /\ (forall k, is_Some (callbacks st !! k) -> is_Some (callbacks st' !! k))
  /\ (forall k v, callbacks st' !! k = Some v ->
        callbacks st !! k = Some v
        \/ (is_function v = true /\ k = arg_fnKey componentId v)).
Proof. apply keeps_serializeArgs. Qed.

Lemma serializeArgs_only_registers_functions_witness :
  let run :=
    serializeArgs 3
      [VObj [(js "done", save_handler); (js "n", VNum 1)]; VStr (js "x")]
      (js "c##x##p") empty_context in
  requests run.2 = requests empty_context
  /\ arrays run.2 = arrays empty_context
  /\ console run.2 = console empty_context
  /\ (forall k, is_Some (callbacks empty_context !! k) ->
        is_Some (callbacks run.2 !! k))
  /\ (forall k v, callbacks run.2 !! k = Some v ->
        callbacks empty_context !! k = Some v
        \/ (is_function v = true /\ k = arg_fnKey (js "c##x##p") v)).
Proof.
  intros run.
  apply (serializeArgs_only_registers_functions 3
           [VObj [(js "done", save_handler); (js "n", VNum 1)]; VStr (js "x")]
           (js "c##x##p") empty_context run.1 run.2).
  apply surjective_pairing.
Defined.











Lemma mapM_ok {A B} (f : A -> M B) xs :
  (forall x, x ∈ xs -> forall st, exists y st', f x st = (Ok y, st')) ->
  forall st, exists ys st', mapM f xs st = (Ok ys, st').
Proof.
  induction xs as [|x xs IH]; intros Hf st; cbn [mapM].
  { by eexists _, _. }
  destruct (Hf x (list_elem_of_here _ _) st) as (y & st1 & E).
  destruct (IH (fun x' Hx' => Hf x' (list_elem_of_further _ _ _ Hx')) st1)
    as (ys & st2 & E').
  exists (y :: ys), st2. unfold bind at 1. rewrite E.
  unfold bind at 1. by rewrite E'.
Qed.

Lemma nesting_element (l : list value) x :
  x ∈ l -> nesting x <= foldr (fun x n => Nat.max (nesting x) n) 0 l.
Proof.
  induction l as [|y l IH]; intros Hin; [by apply elem_of_nil in Hin|].
  cbn [foldr]. apply elem_of_cons in Hin as [->|Hin]; [lia|].
  specialize (IH Hin). lia.
Qed.

Lemma nesting_entry (o : object) v :
  v ∈ o.*2 -> nesting v <= foldr (fun e n => Nat.max (nesting e.2) n) 0 o.
Proof.
  induction o as [|[k w] o IH]; cbn [fmap list_fmap snd foldr]; intros Hin.
  { by apply elem_of_nil in Hin. }
  apply elem_of_cons in Hin as [->|Hin]; [lia|].
  specialize (IH Hin). lia.
Qed.

(** X15. Arguments that hold no array of the store and nest at most [fuel]
    deep are serialized: [serializeArgs] returns. *)
Theorem serializeArgs_returns fuel args componentId st :
  Forall (fun a => ref_free a = true) args ->
  Forall (fun a => nesting a <= fuel) args ->
  exists r st', serializeArgs (S fuel) args componentId st = (Ok r, st').
Proof.
  revert args st. induction fuel as [|fuel IH]; intros args st Hfree Hdeep;
    cbn [serializeArgs]; apply mapM_ok; intros arg Hin st0;
    (eapply Forall_forall in Hfree; [|exact Hin]);
    (eapply Forall_forall in Hdeep; [|exact Hin]);
    cbn beta in Hfree, Hdeep.
  - destruct arg; cbn [truthy negb nesting] in *;
      try lia; try discriminate; try (by eexists _, _).
    + destruct b; by eexists _, _.
    + destruct (n =? 0)%Z; by eexists _, _.
    + destruct s; by eexists _, _.
  - destruct arg; cbn [truthy negb nesting ref_free] in *;
      try discriminate; try (by eexists _, _).
    + destruct b; by eexists _, _.
    + destruct (n =? 0)%Z; by eexists _, _.
    + destruct s; by eexists _, _.
    + unfold bind at 1. cbn [read elements].
      destruct (IH l st0) as (r & st1 & E).
      * apply Forall_forall. intros x Hx.
        rewrite forallb_forall in Hfree. apply Hfree. by apply list_elem_of_In.
      * apply Forall_forall. intros x Hx.
        apply nesting_element in Hx. lia.
      * unfold bind at 1. cbn [serializeArgs] in E. rewrite E. by eexists _, _.
    + unfold bind at 1. cbn [read elements is_object typeof own_entries].
      destruct (IH o.*2 st0) as (r & st1 & E).
      * apply Forall_forall. intros x Hx.
        apply list_elem_of_fmap in Hx as ([k w] & -> & Hx).
        rewrite forallb_forall in Hfree.
        apply (Hfree (k, w)). by apply list_elem_of_In.
      * apply Forall_forall. intros x Hx.
        apply nesting_entry in Hx. lia.
      * unfold bind at 1. cbn [serializeArgs] in E. rewrite E. by eexists _, _.
Qed.

Lemma serializeArgs_returns_witness :
  exists r st',
    serializeArgs 3
      [VObj [(js "done", save_handler); (js "n", VArr [VNum 1])]; VStr (js "x")]
      (js "c##x##p") empty_context
    = (Ok r, st').
Proof.
  apply (serializeArgs_returns 2); repeat constructor.
Defined.

(** *** The serializers *)

Lemma only_adds_refl st : only_adds st st.
Proof.
  split; [reflexivity|]. split; [exists []; by rewrite app_nil_r|].
  split; [intros i l H; exists []; by rewrite app_nil_r|].
  split; [auto|]. intros k v H. by left.
Qed.

Lemma only_adds_trans st1 st2 st3 :
  only_adds st1 st2 -> only_adds st2 st3 -> only_adds st1 st3.
Proof.
  intros (Hr & [m Hc] & Ha & Hdom & Hnew) (Hr' & [m' Hc'] & Ha' & Hdom' & Hnew').
  split; [|split; [|split; [|split]]].
  - congruence.
  - exists (m ++ m'). by rewrite Hc', Hc, app_assoc.
  - intros i l Hl. destruct (Ha i l Hl) as [more Hl1].
    destruct (Ha' i _ Hl1) as [more' Hl2].
    exists (more ++ more'). by rewrite Hl2, app_assoc.
  - intros k Hk. auto.
  - intros k v Hk. destruct (Hnew' k v Hk) as [H|H]; [|by right].
    apply Hnew, H.
Qed.

Lemma only_adds_log e st : only_adds st (log e st).
Proof.
  destruct st as [cb rq ar co]. split; [|split; [|split; [|split]]].
  - reflexivity.
  - by exists [e].
  - intros i l H. exists []. by rewrite app_nil_r.
  - auto.
  - intros k v H. by left.
Qed.

Lemma only_adds_push a v st :
  only_adds st (set_arrays (alter (fun l => l ++ [v]) a) st).
Proof.
  destruct st as [cb rq ar co]. split; [|split; [|split; [|split]]].
  - reflexivity.
  - exists []. cbn. by rewrite app_nil_r.
  - cbn [set_arrays arrays]. intros i l H.
    rewrite list_lookup_alter. destruct (decide (a = i)) as [->|].
    + exists [v]. by rewrite H.
    + exists []. by rewrite app_nil_r.
  - auto.
  - intros k v' H. by left.
Qed.

Lemma only_adds_new_array st : only_adds st (set_arrays (fun h => h ++ [[]]) st).
Proof.
  destruct st as [cb rq ar co]. split; [|split; [|split; [|split]]].
  - reflexivity.
  - exists []. cbn. by rewrite app_nil_r.
  - cbn [set_arrays arrays]. intros i l H. exists [].
    rewrite app_nil_r. rewrite lookup_app_l; [exact H|].
    by eapply lookup_lt_Some.
  - auto.
  - intros k v H. by left.
Qed.

Lemma only_adds_register k f st :
  is_function f = true -> only_adds st (set_callbacks (insert k f) st).
Proof.
  intros Hf. destruct st as [cb rq ar co]. unfold only_adds.
  cbn [set_callbacks callbacks requests console arrays].
  split; [|split; [|split; [|split]]].
  - reflexivity.
  - exists []. by rewrite app_nil_r.
  - intros i l H. exists []. by rewrite app_nil_r.
  - intros k' Hk. destruct (decide (k = k')) as [<-|Hne].
    + rewrite lookup_insert_eq. eauto.
    + by rewrite lookup_insert_ne.
  - intros k' v. destruct (decide (k = k')) as [<-|Hne].
    + rewrite lookup_insert_eq. intros [= <-]. by right.
    + rewrite lookup_insert_ne by done. by left.
Qed.

Lemma keeps_push a v : keeps only_adds (push a v).
Proof. apply keeps_update. intros st. apply only_adds_push. Qed.

Lemma keeps_new_array : keeps only_adds new_array.
Proof.
  intros st r st' [= <- <-]. apply only_adds_new_array.
Qed.

Lemma keeps_log e : keeps only_adds (update (log e)).
Proof. apply keeps_update. intros st. apply only_adds_log. Qed.

Ltac keeps_bind :=
  apply (keeps_bind only_adds only_adds_trans).
Ltac keeps_ret := apply (keeps_ret only_adds only_adds_refl).
Ltac keeps_throw := apply (keeps_throw only_adds only_adds_refl).
Ltac keeps_read := apply (keeps_read only_adds only_adds_refl).
Ltac keeps_mapM :=
  apply (keeps_mapM only_adds only_adds_refl only_adds_trans).
Ltac keeps_foldM :=
  apply (keeps_foldM only_adds only_adds_refl only_adds_trans).

Lemma keeps_serialize_callback cid pid newProps key fn :
  is_function fn = true ->
  keeps only_adds (serialize_callback cid pid newProps key fn).
Proof.
  intros Hfn. unfold serialize_callback. keeps_bind.
  - apply keeps_update. intros st. by apply only_adds_register.
  - intros _. destruct (truthy _);
      apply keeps_add_marker, only_adds_refl.
Qed.

Lemma keeps_merge_bubbled unifiedChildren a :
  keeps only_adds (merge_bubbled unifiedChildren a).
Proof.
  unfold merge_bubbled. keeps_bind; [keeps_read|]. intros h.
  keeps_foldM. intros [] child.
  destruct (_ && _); [|keeps_ret].
  keeps_bind; [keeps_read|]. intros h'.
  destruct (elements h' _); [|keeps_throw].
  keeps_foldM. intros [] c. apply keeps_push.
Qed.

Lemma composed_keeps_serializeProps_with sn cid pid props :
  (forall v n pid, keeps only_adds (sn v n pid)) ->
  keeps only_adds (Composed.serializeProps_with sn cid pid props).
Proof.
  intros Hsn. unfold Composed.serializeProps_with.
  keeps_bind; [apply keeps_Object_entries, only_adds_refl|].
  intros entries. keeps_bind; [|intros; keeps_ret].
  keeps_foldM. intros newProps [key v]. cbn [fst snd].
  destruct (is_function v) eqn:Hfn; cbn [negb];
    [by apply keeps_serialize_callback|].
  keeps_bind; [|intros; keeps_ret].
  destruct (is_vnode v).
  - keeps_bind; [apply keeps_new_array | intros n; apply Hsn].
  - destruct (is_proxy v); [|keeps_ret].
    keeps_bind; [keeps_read | intros; keeps_ret].
Qed.

Lemma composed_keeps_serializeChildComponent_with sp pid props :
  (forall cid pid props, keeps only_adds (sp cid pid props)) ->
  keeps only_adds (Composed.serializeChildComponent_with sp pid props).
Proof.
  intros Hsp. unfold Composed.serializeChildComponent_with.
  keeps_bind; [|intros; keeps_ret].
  apply keeps_try_catch; [apply only_adds_trans| |].
  - keeps_bind; [|intros; keeps_ret].
    destruct (truthy _); [apply Hsp | keeps_ret].
  - intros e. keeps_bind; [apply keeps_log | intros; keeps_ret].
Qed.

Lemma composed_keeps_serializeNode P fuel node a pid :
  keeps only_adds (Composed.serializeNode P fuel node a pid).
Proof.
  revert node a pid. induction fuel as [|fuel IH]; intros node a pid.
  { apply keeps_out_of_fuel, only_adds_refl. }
  cbn [Composed.serializeNode].
  destruct (_ || _); [keeps_ret|].
  keeps_bind; [keeps_bind; [keeps_read | intros; keeps_ret]|].
  intros props.
  keeps_bind; [keeps_read|]. intros h.
  keeps_bind; [apply keeps_merge_bubbled|]. intros _.
  destruct (is_function _).
  - destruct (_ && _); [keeps_throw|].
    keeps_bind.
    { destruct (Composed.isWidget _ _); [apply keeps_log | keeps_ret]. }
    intros _. keeps_bind.
    { apply composed_keeps_serializeChildComponent_with. intros cid pid' props'.
      apply composed_keeps_serializeProps_with. apply IH. }
    intros r. keeps_bind; [|intros; keeps_ret].
    destruct (truthy _); [apply keeps_push | keeps_ret].
  - keeps_bind.
    { apply composed_keeps_serializeProps_with. apply IH. }
    intros serialized.
    keeps_bind; [keeps_read|]. intros own.
    keeps_bind; [keeps_read|]. intros h'.
    keeps_bind; [|intros; keeps_ret].
    keeps_mapM. intros c. destruct (truthy _); [apply IH | keeps_ret].
Qed.

(** X16. Serializing a tree never touches the RequestMap, never removes a
    callback, stores nothing but functions in the CallbackMap, and only
    appends to the console; this holds when it returns, when it throws and
    when the budget of the model runs out. *)
Theorem serializeNode_only_adds_functions
    P fuel node childComponents parentId st r st' :
  Composed.serializeNode P fuel node childComponents parentId st = (r, st') ->
  requests st' = requests st
  /\ (exists more, console st' = console st ++ more)
  /\ (forall i l, arrays st !! i = Some l ->
        exists more, arrays st' !! i = Some (l ++ more))
  /\ (forall k, is_Some (callbacks st !! k) -> is_Some (callbacks st' !! k))
  /\ (forall k v, callbacks st' !! k = Some v ->
        callbacks st !! k = Some v \/ is_function v = true).
Proof. apply composed_keeps_serializeNode. Qed.

Lemma serializeNode_only_adds_functions_witness :
  let run :=
    Composed.serializeNode sample_params 4 (vnode sample_tree) 0 (js "p")
      empty_context in
  requests run.2 = requests empty_context
  /\ (exists more, console run.2 = console empty_context ++ more)
  /\ (forall i l, arrays empty_context !! i = Some l ->
        exists more, arrays run.2 !! i = Some (l ++ more))
  /\ (forall k, is_Some (callbacks empty_context !! k) ->
        is_Some (callbacks run.2 !! k))
  /\ (forall k v, callbacks run.2 !! k = Some v ->
        callbacks empty_context !! k = Some v \/ is_function v = true).
Proof.
  intros run.
  apply (serializeNode_only_adds_functions sample_params 4
           (vnode sample_tree) 0 (js "p") empty_context run.1 run.2).
  apply surjective_pairing.
Defined.

Lemma standalone_keeps_serializeProps_with P sn cid pid props :
  (forall v n pid, keeps only_adds (sn v n pid)) ->
  keeps only_adds (Standalone.serializeProps_with P sn cid pid props).
Proof.
  intros Hsn. unfold Standalone.serializeProps_with.
  keeps_bind; [apply keeps_Object_entries, only_adds_refl|].
  intros entries. keeps_bind; [|intros; keeps_ret].
  keeps_foldM. intros newProps [key v]. cbn [fst snd].
  destruct (is_function v) eqn:Hfn; cbn [negb];
    [by apply keeps_serialize_callback|].
  keeps_bind; [|intros; keeps_ret].
  destruct (is_vnode v).
  - keeps_bind; [apply keeps_new_array | intros n; apply Hsn].
  - destruct v; try keeps_ret;
      (destruct (is_proxy _); [|keeps_ret]);
      (keeps_bind; [keeps_read | intros; keeps_ret]).
Qed.

Lemma standalone_keeps_serializeNode P fuel node a pid :
  (forall fn arg, keeps only_adds (Standalone.call P fn arg)) ->
  keeps only_adds (Standalone.serializeNode P fuel node a pid).
Proof.
  intros Hcall. revert node a pid.
  induction fuel as [|fuel IH]; intros node a pid.
  { apply keeps_out_of_fuel, only_adds_refl. }
  cbn [Standalone.serializeNode].
  destruct (_ || _); [keeps_ret|].
  keeps_bind; [keeps_bind; [keeps_read | intros; keeps_ret]|].
  intros props.
  keeps_bind; [keeps_read|]. intros h.
  keeps_bind; [apply keeps_merge_bubbled|]. intros _.
  assert (Hhost : forall ty props' children',
    keeps only_adds
      (let* serialized :=
         Standalone.serializeProps_with P (Standalone.serializeNode P fuel)
           None pid props' in
       let* own := spread serialized in
       let* h := read arrays in
       match elements h children' with
       | None => throw TypeError
       | Some l =>
           let* kids :=
             mapM (fun c =>
               if truthy (get c (js "props")) then
                 Standalone.serializeNode P fuel c a pid
               else ret c) (flat h l) in
           ret (VObj [(js "type", ty);
                      (js "props",
                        VObj (obj_set own (js "children") (VArr kids)));
                      (js "childComponents", VAcc a)])
       end)).
  { intros ty props' children'.
    keeps_bind.
    { apply standalone_keeps_serializeProps_with. apply IH. }
    intros serialized.
    keeps_bind; [keeps_read|]. intros own.
    keeps_bind; [keeps_read|]. intros h'.
    destruct (elements h' children'); [|keeps_throw].
    keeps_bind; [|intros; keeps_ret].
    keeps_mapM. intros c.
    destruct (truthy _); [apply IH | keeps_ret]. }
  destruct (is_function _); [|apply Hhost].
  destruct (decide _); [apply Hhost|].
  destruct (truthy _).
  { keeps_bind; [apply Hcall|]. intros r.
    destruct (nullish r); [keeps_throw|].
    destruct (nullish _); [keeps_throw|]. apply Hhost. }
  destruct (decide _).
  - keeps_bind; [|intros; keeps_ret].
    apply keeps_try_catch; [apply only_adds_trans| |].
    + keeps_bind; [|intros; apply keeps_push].
      destruct (truthy _); [|keeps_ret].
      apply standalone_keeps_serializeProps_with. apply IH.
    + intros err. apply keeps_log.
  - keeps_bind; [keeps_read|]. intros h'.
    keeps_bind; [apply Hcall|]. intros rendered.
    apply IH.
Qed.

(** X17. The same for [serializeNode] of serialize.ts, when the functions it
    calls (builtins and component functions that render their tree) do no
    more than that themselves. *)
Theorem standalone_serializeNode_only_adds_functions
    P fuel node childComponents parentId st r st' :
  (forall fn arg, keeps only_adds (Standalone.call P fn arg)) ->
  Standalone.serializeNode P fuel node childComponents parentId st = (r, st') ->
  requests st' = requests st
  /\ (exists more, console st' = console st ++ more)
  /\ (forall i l, arrays st !! i = Some l ->
        exists more, arrays st' !! i = Some (l ++ more))
  /\ (forall k, is_Some (callbacks st !! k) -> is_Some (callbacks st' !! k))
  /\ (forall k v, callbacks st' !! k = Some v ->
        callbacks st !! k = Some v \/ is_function v = true).
Proof. intros Hcall. by apply standalone_keeps_serializeNode. Qed.

Lemma standalone_serializeNode_only_adds_functions_witness :
  let run :=
    Standalone.serializeNode (standalone_params decodeJsonString) 4
      (vnode sample_tree) 0 (js "p") empty_context in
  requests run.2 = requests empty_context
  /\ (exists more, console run.2 = console empty_context ++ more)
  /\ (forall i l, arrays empty_context !! i = Some l ->
        exists more, arrays run.2 !! i = Some (l ++ more))
  /\ (forall k, is_Some (callbacks empty_context !! k) ->
        is_Some (callbacks run.2 !! k))
  /\ (forall k v, callbacks run.2 !! k = Some v ->
        callbacks empty_context !! k = Some v \/ is_function v = true).
Proof.
  intros run.
  apply (standalone_serializeNode_only_adds_functions
           (standalone_params decodeJsonString) 4
           (vnode sample_tree) 0 (js "p") empty_context run.1 run.2).
  - intros fn arg st r st' [= <- <-]. apply only_adds_refl.
  - apply surjective_pairing.
Defined.

(** ** The tree that [serializeNode] returns *)

Section exact.

Context (Q : Composed.ComposeSerializationMethodsParams).

Lemma serialize_kids_exact fuel a pid kids :
  exact_on Q fuel a pid ->
  Forall (well_formed Q) kids -> Forall (fun k => height k < fuel) kids ->
  forall st l, arrays st !! a = Some l ->
  exists st',
    mapM (fun c =>
            if truthy (get c (js "props")) then
              Composed.serializeNode Q fuel c a pid
            else ret c) (vnode <$> kids) st
    = (Ok (serialized a pid <$> kids), st')
    /\ arrays st' !! a = Some (l ++ concat (entries_of pid <$> kids)).
Proof.
  intros IH Hwf. induction Hwf as [|k kids Hk _ IHkids]; intros Hh st l Hl.
  - exists st. cbn. by rewrite app_nil_r.
  - apply Forall_cons in Hh as [Hhk Hh].
    cbn [fmap list_fmap]. rewrite mapM_cons.
    assert (exists st1,
      (if truthy (get (vnode k) (js "props")) then
         Composed.serializeNode Q fuel (vnode k) a pid
       else ret (vnode k)) st = (Ok (serialized a pid k), st1)
      /\ arrays st1 !! a = Some (l ++ entries_of pid k))
      as (st1 & Hrun & Hl1).
    { destruct (vnode_props Q k Hk) as [(Hleaf & _ & x & ->)|[Hp _]].
      - cbn [vnode] in *. destruct (is_leaf_not_node x Hleaf) as (-> & _).
        exists st. cbn. by rewrite app_nil_r.
      - rewrite Hp. by apply IH. }
    destruct (IHkids Hh st1 _ Hl1) as (st2 & Hrun2 & Hl2).
    exists st2.
    erewrite bind_ok by exact Hrun. erewrite bind_ok by exact Hrun2.
    split; [reflexivity|].
    cbn [concat]. by rewrite app_assoc.
Qed.

Lemma serialize_element_exact fuel a pid tag attrs children kids st l :
  exact_on Q fuel a pid ->
  plain_props attrs ->
  Forall (well_formed Q) kids -> Forall (fun k => height k < fuel) kids ->
  (forall h, unify h (if truthy children then children else VArr [])
             = VArr (vnode <$> kids)) ->
  arrays st !! a = Some l ->
  exists st',
    Composed.serializeNode Q (S fuel) (element_with (VStr tag) attrs children)
      a pid st
    = (Ok (host_element a pid tag attrs (serialized a pid <$> kids)), st')
    /\ arrays st' !! a = Some (l ++ concat (entries_of pid <$> kids)).
Proof.
  intros IH Hattrs Hkids Hh Hunify Hl.
  cbn [Composed.serializeNode]. unfold element_with.
  destruct (rendered_node (VStr tag) ((js "children", children) :: attrs))
    as (Htype & Hprops & _ & _ & ->).
  erewrite bind_ok by apply props_of_ok.
  erewrite bind_ok by apply read_ok.
  unfold children_of. rewrite Htype, Hprops.
  change (get (VObj ((js "children", children) :: attrs)) (js "children"))
    with children.
  rewrite Hunify.
  erewrite bind_ok by (eapply merge_bubbled_kids; exact Hkids).
  change (is_function (VStr tag)) with false. cbv iota.
  cbn [own_entries].
  rewrite obj_delete_head.
  erewrite bind_ok
    by (apply composed_serializeProps_with_plain, plain_props_delete, Hattrs).
  erewrite bind_ok by reflexivity.
  erewrite bind_ok by apply read_ok.
  cbn [elements default from_option id]. rewrite arrays_set_callbacks.
  rewrite flat_no_arrays.
  2:{ apply Forall_fmap. eapply Forall_impl; [exact Hkids|]. intros k Hk.
      cbn. by destruct (vnode_quiet Q k Hk) as [_ ->]. }
  destruct (serialize_kids_exact fuel a pid kids IH Hkids Hh
              (set_callbacks
                 (registered None pid (obj_delete attrs (js "children")))
                 st) l)
    as (st' & Hrun & Hl'); [by rewrite arrays_set_callbacks|].
  erewrite bind_ok by exact Hrun.
  exists st'. split; [reflexivity | exact Hl'].
Qed.

Lemma serialize_tree_exact fuel a pid : exact_on Q fuel a pid.
Proof.
  revert a pid. unfold exact_on.
  induction fuel as [|fuel IH]; intros a pid t st l Hwf Hh Hl; [lia|].
  destruct Hwf as [v Hv|tag attrs kids Hattrs Hkids|tag attrs kid Hattrs Hkid
                  |marker props Hfn Hrec Hq Hcp].
  - exists st. cbn [Composed.serializeNode vnode entries_of serialized].
    destruct (is_leaf_not_node v Hv) as (_ & _ & _ & ->).
    by rewrite app_nil_r.
  - cbn [height] in Hh. apply height_kids in Hh.
    apply (serialize_element_exact fuel a pid tag attrs
             (VArr (vnode <$> kids)) kids); [exact (IH a pid) | done..].
  - cbn [height] in Hh. cbn [vnode entries_of serialized].
    destruct (vnode_props Q kid Hkid) as [(Hleaf & Hnone & x & ->)|[_ Htruthy]].
    + cbn [vnode entries_of serialized] in *.
      destruct (truthy x) eqn:Hx.
      * destruct (serialize_element_exact fuel a pid tag attrs x [Leaf x] st l)
          as (st' & Hrun & Hl');
          [exact (IH a pid) | done | by repeat constructor
          | repeat constructor; cbn; lia
          | intros h; rewrite Hx; unfold unify;
            by destruct (is_leaf_not_node x Hleaf) as (_ & _ & -> & _)
          | exact Hl |].
        exists st'. split; [exact Hrun|].
        by rewrite Hl'.
      * destruct (serialize_element_exact fuel a pid tag attrs x [] st l)
          as (st' & Hrun & Hl');
          [exact (IH a pid) | done | constructor | constructor
          | intros h; by rewrite Hx | exact Hl |].
        exists st'. split; [exact Hrun|].
        by rewrite Hl'.
    + rewrite Htruthy.
      destruct (serialize_element_exact fuel a pid tag attrs (vnode kid) [kid]
                  st l)
        as (st' & Hrun & Hl');
        [exact (IH a pid) | done | by repeat constructor
        | repeat constructor; lia
        | intros h; rewrite Htruthy; unfold unify;
          by destruct (vnode_quiet Q kid Hkid) as [_ ->]
        | exact Hl |].
      exists st'. split; [exact Hrun|].
      rewrite Hl'. cbn [fmap list_fmap concat]. by rewrite app_nil_r.
  - destruct (serialize_nested Q fuel marker props a pid st l)
      as (st' & Hrun & Hl'); [by constructor | exact Hl|].
    exists st'. split; [exact Hrun | exact Hl'].
Qed.

End exact.

(** X18. The tree that [serializeNode] of [composeSerializationMethods]
    returns for a well-formed tree is the tree itself in serialized form:
    leaves as they are, every host element with its tag, with its attributes
    as [serializeProps] gives them without a component id, with its children
    in order (a lone falsy child dropped) and with a reference to the
    accumulator, and every nested component replaced by the [div]
    placeholder of its component id. *)
Theorem serializeNode_returns_the_serialized_tree
    (Q : Composed.ComposeSerializationMethodsParams)
    (t : tree) fuel (a : nat) pid st (l : list value) :
  well_formed Q t -> height t < fuel -> arrays st !! a = Some l ->
  exists st',
    Composed.serializeNode Q fuel (vnode t) a pid st
    = (Ok (serialized a pid t), st').
Proof.
  intros Hwf Hh Hl.
  destruct (serialize_tree_exact Q fuel a pid t st l Hwf Hh Hl)
    as (st' & Hrun & _).
  by exists st'.
Qed.

Lemma serializeNode_returns_the_serialized_tree_witness :
  exists st',
    Composed.serializeNode sample_params 3 (vnode sample_tree) 0 (js "p")
      empty_context
    = (Ok (serialized 0 (js "p") sample_tree), st').
Proof.
  apply (serializeNode_returns_the_serialized_tree sample_params sample_tree
           3 0 (js "p") empty_context []).
  - exact sample_tree_well_formed.
  - cbn. lia.
  - reflexivity.
Defined.

(** ** Which arrays the serializers write to *)

(** X19. [serializeNode] writes to its accumulator and to arrays it made
    itself: every other array that existed when it started is as it was,
    however the call ends. *)
Theorem serializeNode_writes_to_its_accumulator_only
    P fuel node childComponents parentId st r st' i :
  Composed.serializeNode P fuel node childComponents parentId st = (r, st') ->
  i < length (arrays st) -> i <> childComponents ->
  arrays st' !! i = arrays st !! i.
Proof.
  intros Hrun Hi Hne.
  apply composed_frames_serializeNode in Hrun as [_ H].
  apply H; [exact Hi | congruence].
Qed.

Lemma serializeNode_writes_to_its_accumulator_only_witness :
  let st := Context ∅ ∅ [[]; [VStr (js "kept")]] [] in
  let run :=
    Composed.serializeNode sample_params 4 (vnode sample_tree) 0 (js "p") st in
  arrays run.2 !! 1 = arrays st !! 1.
Proof.
  intros st run.
  apply (serializeNode_writes_to_its_accumulator_only sample_params 4
           (vnode sample_tree) 0 (js "p") st run.1 run.2 1).
  - apply surjective_pairing.
  - cbn. lia.
  - discriminate.
Defined.

(** X20. [serializeProps] writes to no array that existed when it started:
    the components nested in a prop that is a rendered node are collected in
    an array of their own, not in the accumulator of the node whose props
    these are. *)
Theorem serializeProps_writes_to_fresh_arrays_only
    P fuel componentId parentId props st r st' i :
  Composed.serializeProps P fuel componentId parentId props st = (r, st') ->
  i < length (arrays st) ->
  arrays st' !! i = arrays st !! i.
Proof.
  intros Hrun Hi.
  apply (composed_frames_serializeProps P fuel None) in Hrun as [_ H].
  by apply H.
Qed.

Lemma serializeProps_writes_to_fresh_arrays_only_witness :
  let run :=
    Composed.serializeProps sample_params 4 None (js "p")
      (VObj [(js "icon", vnode sample_tree)]) empty_context in
  arrays run.2 !! 0 = arrays empty_context !! 0.
Proof.
  intros run.
  apply (serializeProps_writes_to_fresh_arrays_only sample_params 4 None
           (js "p") (VObj [(js "icon", vnode sample_tree)]) empty_context
           run.1 run.2 0).
  - apply surjective_pairing.
  - cbn. lia.
Defined.

(** ** serialize.ts: the root component and nodes without a type *)

(** X21. In serialize.ts a node whose type is the root component of Preact
    ([preactRootComponentName]), or whose type is falsy, is serialized as
    the same node with the type ['div']: same result, same state. *)
Theorem fragment_or_untyped_node_is_a_div
    P fuel type (props : object) childComponents parentId st :
  (is_function type = true /\ fn_name_of type = Standalone.preactRootComponentName P)
  \/ truthy type = false ->
  Standalone.serializeNode P fuel (rendered type props) childComponents
    parentId st
  = Standalone.serializeNode P fuel (rendered (VStr (js "div")) props)
      childComponents parentId st.
Proof.
  intros Htype. destruct fuel as [|fuel]; [reflexivity|].
  cbn [Standalone.serializeNode].
  destruct (rendered_node type props) as (Ht & Hp & _ & _ & ->).
  destruct (rendered_node (VStr (js "div")) props) as (Ht' & Hp' & _ & _ & ->).
  unfold children_of, props_of. rewrite Ht, Hp, Ht', Hp'.
  apply bind_ext. intros props0 st0.
  apply bind_ext. intros h st1.
  apply bind_ext. intros [] st2.
  destruct Htype as [[Hfn Hname]|Hfalsy].
  - rewrite Hfn, Hname. rewrite decide_True by reflexivity.
    reflexivity.
  - rewrite Hfalsy. destruct type; try discriminate Hfalsy; reflexivity.
Qed.

Lemma fragment_or_untyped_node_is_a_div_witness :
  Standalone.serializeNode (standalone_params decodeJsonString) 3
    (rendered (VFun (Func (js "Fragment") (js "function Fragment(props) {}") 7))
       [(js "children", VStr (js "hello"))])
    0 (js "p") empty_context
  = Standalone.serializeNode (standalone_params decodeJsonString) 3
      (rendered (VStr (js "div")) [(js "children", VStr (js "hello"))])
      0 (js "p") empty_context.
Proof.
  apply fragment_or_untyped_node_is_a_div.
  left. split; reflexivity.
Defined.

(** * The host application *)

Section app.

Import App.

Lemma extends_refl p : extends p p.
Proof.
  split; [done|]. split; [auto|]. exists []. by rewrite app_nil_r.
Qed.

Lemma extends_trans p1 p2 p3 : extends p1 p2 -> extends p2 p3 -> extends p1 p3.
Proof.
  intros (Hr & Hw & [m He]) (Hr' & Hw' & [m' He']).
  split; [by etrans|]. split; [auto|].
  exists (m ++ m'). by rewrite He', He, app_assoc.
Qed.

Lemma step_ok_refl p : step_ok p p.
Proof. split; [apply extends_refl | auto]. Qed.

Lemma step_ok_trans p1 p2 p3 : step_ok p1 p2 -> step_ok p2 p3 -> step_ok p1 p3.
Proof.
  intros [H1 I1] [H2 I2]. split; [by eapply extends_trans | auto].
Qed.

Lemma step_ok_record e p :
  (forall r el, e = render r el -> exists w, roots p !! w = Some r) ->
  step_ok p (record e p).
Proof.
  intros He. destruct p as [rt wd ef]. split.
  - split; [done|]. split; [auto|]. by exists [e].
  - unfold page_ok, record. cbn [roots widgets effects].
    intros (Hroots & Hrender & Hwidgets). split; [|split].
    + intros w r Hr. apply elem_of_app. left. by eapply Hroots.
    + intros r el [Hin|Hin%list_elem_of_singleton]%elem_of_app.
      * by eapply Hrender.
      * by eapply He.
    + intros k v Hk. destruct (Hwidgets k v Hk) as [t Ht].
      exists t. apply elem_of_app. by left.
Qed.

Lemma step_ok_set_root w d p :
  roots p !! w = None -> createRoot d ∈ effects p ->
  step_ok p (set_roots (insert w d) p).
Proof.
  intros Hnone Hd. destruct p as [rt wd ef].
  unfold set_roots. cbn [roots widgets effects] in *. split.
  - split; [by apply insert_subseteq|]. split; [auto|].
    exists []. by rewrite app_nil_r.
  - unfold page_ok. cbn [roots widgets effects].
    intros (Hroots & Hrender & Hwidgets). split; [|split].
    + intros w' r. destruct (decide (w = w')) as [<-|Hne].
      * rewrite lookup_insert_eq. by intros [= <-].
      * rewrite lookup_insert_ne by done. apply Hroots.
    + intros r el Hin. destruct (Hrender r el Hin) as [w' Hw'].
      exists w'. destruct (decide (w = w')) as [<-|Hne]; [congruence|].
      by rewrite lookup_insert_ne.
    + exact Hwidgets.
Qed.

Lemma step_ok_set_widget k v p :
  (page_ok p ->
   exists t, postMessageToIframe (js "transpiler") (widgetFetch k t) (js "*")
             ∈ effects p) ->
  step_ok p (set_widgets (insert k v) p).
Proof.
  intros Hk. split.
  - destruct p as [rt wd ef]. unfold extends, set_widgets.
    cbn [roots widgets effects].
    split; [done|]. split.
    + intros k' Hk'. destruct (decide (k = k')) as [<-|Hne].
      * rewrite lookup_insert_eq. eauto.
      * by rewrite lookup_insert_ne.
    + exists []. by rewrite app_nil_r.
  - intros Hok. specialize (Hk Hok). revert Hk Hok.
    destruct p as [rt wd ef]. unfold page_ok, set_widgets.
    cbn [roots widgets effects].
    intros Hk (Hroots & Hrender & Hwidgets).
    split; [exact Hroots|]. split; [exact Hrender|].
    intros k' v'.
    destruct (decide (k = k')) as [<-|Hne].
    + intros _. exact Hk.
    + rewrite lookup_insert_ne by done. apply Hwidgets.
Qed.

Lemma app_keeps_ret {X} (x : X) : keeps (ret x).
Proof. intros p r p' [= <- <-]. split; [apply step_ok_refl | done]. Qed.

Lemma app_keeps_throw {X} e : keeps (@throw X e).
Proof. intros p r p' [= <- <-]. split; [apply step_ok_refl | done]. Qed.

Lemma app_keeps_read {X} (f : page -> X) : keeps (read f).
Proof. intros p r p' [= <- <-]. split; [apply step_ok_refl | done]. Qed.

Lemma app_keeps_leave E e : keeps (leave E e).
Proof.
  intros p r p'. unfold leave. destruct (throws E e p); intros [= <- <-];
    (split; [apply step_ok_refl | done]).
Qed.

Lemma app_keeps_bind_at {X Y} (m : A X) (k : X -> A Y) p :
  (forall r p', m p = (r, p') -> step_ok p p' /\ r <> OutOfFuel) ->
  (forall x, keeps (k x)) ->
  forall r p', bind m k p = (r, p') -> step_ok p p' /\ r <> OutOfFuel.
Proof.
  intros Hm Hk r p'. unfold bind.
  destruct (m p) as [[x|e|] p1]; intros H.
  - destruct (Hm _ _ eq_refl) as [H1 _]. destruct (Hk x _ _ _ H) as [H2 Hr].
    split; [by eapply step_ok_trans | exact Hr].
  - injection H as <- <-. destruct (Hm _ _ eq_refl) as [H1 _]. by split.
  - by destruct (Hm _ _ eq_refl) as [_ []].
Qed.

Lemma app_keeps_bind {X Y} (m : A X) (k : X -> A Y) :
  keeps m -> (forall x, keeps (k x)) -> keeps (bind m k).
Proof. intros Hm Hk p. apply app_keeps_bind_at; [apply Hm | exact Hk]. Qed.

Lemma app_keeps_try_catch {X} (m : A X) (h : error -> A X) :
  keeps m -> (forall e, keeps (h e)) -> keeps (try_catch m h).
Proof.
  intros Hm Hh p r p'. unfold try_catch.
  destruct (m p) as [[x|e|] p1] eqn:E; intros H.
  - injection H as <- <-. eapply Hm, E.
  - destruct (Hm _ _ _ E) as [H1 _]. destruct (Hh e _ _ _ H) as [H2 Hr].
    split; [by eapply step_ok_trans | exact Hr].
  - by destruct (Hm _ _ _ E) as [_ []].
Qed.

Lemma app_keeps_record e :
  (forall r el, e <> render r el) -> keeps (update (record e)).
Proof.
  intros He p r p' [= <- <-]. split; [|done]. apply step_ok_record.
  intros r' el ->. by destruct (He r' el).
Qed.

(** A call that is no [render]. *)
Lemma app_keeps_call E e :
  (forall r el, e <> render r el) -> keeps (call E e).
Proof.
  intros He. unfold call.
  apply app_keeps_bind; [by apply app_keeps_record|].
  intros; apply app_keeps_leave.
Qed.

(** Rendering to the root that [roots] holds for the widget. *)
Lemma app_keeps_render_root E widgetId element :
  keeps (let+ root := read (fun p => roots p !! widgetId) in
         match root with
         | Some root => call E (render root element)
         | None => throw TypeError
         end).
Proof.
  intros p r p'. unfold bind at 1. cbn [read].
  destruct (roots p !! widgetId) as [root|] eqn:Hroot; [|apply app_keeps_throw].
  unfold call. apply app_keeps_bind_at; [|intros; apply app_keeps_leave].
  intros r1 p1 [= <- <-]. split; [|done]. apply step_ok_record.
  intros r' el [= <- <-]. eauto.
Qed.

(** Making the root of a widget that has none. *)
Lemma app_keeps_create_root E widgetId domElement p r p' :
  roots p !! widgetId = None ->
  (let+ _ := call E (createRoot domElement) in
   let+ _ := update (set_roots (insert widgetId domElement)) in
   ret true) p = (r, p') ->
  step_ok p p' /\ r <> OutOfFuel.
Proof.
  intros Hnone. unfold call, bind, update, leave, ret.
  assert (Hrec : step_ok p (record (createRoot domElement) p)).
  { apply step_ok_record. discriminate. }
  destruct (throws E _ _); intros [= <- <-]; (split; [|done]); [exact Hrec|].
  eapply step_ok_trans; [exact Hrec|].
  apply step_ok_set_root.
  - by destruct p.
  - destruct p as [rt wd ef]. cbn [record effects].
    apply elem_of_app. right. left.
Qed.

Lemma app_keeps_mountElement E widgetId element :
  keeps (mountElement E widgetId element).
Proof.
  intros p. unfold mountElement. intros r p'.
  unfold bind at 1. cbn [read]. revert r p'.
  destruct (roots p !! widgetId) as [root|] eqn:Hroot.
  - apply app_keeps_bind; [apply app_keeps_ret|].
    intros [|]; [apply app_keeps_render_root | apply app_keeps_ret].
  - apply app_keeps_bind_at.
    2:{ intros [|]; [apply app_keeps_render_root | apply app_keeps_ret]. }
    intros r p'. unfold bind at 1. cbn [read].
    destruct (getElementById E p _) as [domElement|].
    + by apply app_keeps_create_root.
    + revert r p'.
      apply app_keeps_bind; [apply app_keeps_call; discriminate|]. intros _.
      apply app_keeps_bind; [apply app_keeps_record; discriminate|]. intros _.
      apply app_keeps_ret.
Qed.

Lemma app_keeps_widgetProxy_set E key value :
  keeps (widgetProxy_set E key value).
Proof.
  intros p. unfold widgetProxy_set. intros r p'.
  unfold bind at 1. cbn [read].
  destruct (truthy (default VUndefined (widgets p !! key))) eqn:Hcurrent;
    cbn [negb].
  - (* listed already: by what holds of the page, requested before *)
    unfold bind at 1. cbn [ret]. intros [= <- <-]. split; [|done].
    apply step_ok_set_widget. intros (_ & _ & Hwidgets).
    destruct (widgets p !! key) as [v|] eqn:Hv; [|discriminate Hcurrent].
    by eapply Hwidgets.
  - destruct (nullish value).
    { unfold bind, throw. intros [= <- <-]. split; [apply step_ok_refl | done]. }
    unfold requestWidgetSource, call, bind, update, leave.
    set (fetch := postMessageToIframe _ _ _).
    assert (Hrec : step_ok p (record fetch p)).
    { apply step_ok_record. discriminate. }
    destruct (throws E fetch _); intros [= <- <-]; (split; [|done]);
      [exact Hrec|].
    eapply step_ok_trans; [exact Hrec|].
    apply step_ok_set_widget. intros _. eexists.
    destruct p as [rt wd ef]. cbn [record effects].
    apply elem_of_app. right. left.
Qed.

Lemma app_keeps_perform_all E calls : keeps (perform_all E calls).
Proof.
  induction calls as [|a calls IH]; cbn [perform_all]; [apply app_keeps_ret|].
  apply app_keeps_bind; [|intros; exact IH].
  unfold perform. apply app_keeps_try_catch; [|intros; apply app_keeps_ret].
  destruct a.
  - apply app_keeps_mountElement.
  - apply app_keeps_widgetProxy_set.
  - apply app_keeps_call. discriminate.
Qed.

Lemma app_keeps_sourceTranspiled E V data : keeps (sourceTranspiled E V data).
Proof.
  unfold sourceTranspiled, widgetProxy_get.
  apply app_keeps_bind; [apply app_keeps_read|]. intros current.
  apply app_keeps_bind.
  { destruct (_ && _); [apply app_keeps_call; discriminate | apply app_keeps_ret]. }
  intros _. apply app_keeps_bind; [apply app_keeps_call; discriminate|].
  intros _. apply app_keeps_bind; [apply app_keeps_call; discriminate|].
  intros _. apply app_keeps_widgetProxy_set.
Qed.

Lemma app_keeps_buildMessageListener E V eventType data :
  keeps (buildMessageListener E V eventType data).
Proof.
  unfold buildMessageListener. apply app_keeps_try_catch.
  2:{ intros e. apply app_keeps_record. discriminate. }
  destruct (negb (is_object data)); [apply app_keeps_ret|].
  destruct (nullish data); [apply app_keeps_throw|].
  destruct (negb (is_string _ _)); [apply app_keeps_ret|].
  destruct (decide _); [apply app_keeps_sourceTranspiled|].
  destruct (decide _).
  { apply app_keeps_bind; [|intros _]; apply app_keeps_call; discriminate. }
  destruct (decide _).
  { apply app_keeps_bind; [|intros _]; apply app_keeps_call; discriminate. }
  destruct (decide _); [|apply app_keeps_ret].
  apply app_keeps_bind; [apply app_keeps_call; discriminate|]. intros _.
  apply app_keeps_bind; [apply app_keeps_record; discriminate|]. intros _.
  apply app_keeps_bind; [apply app_keeps_read|]. intros calls.
  apply app_keeps_bind; [apply app_keeps_perform_all|]. intros _.
  apply app_keeps_leave.
Qed.

(** A listener catches what its body throws. *)
Lemma buildMessageListener_returns E V eventType data p :
  exists p', buildMessageListener E V eventType data p = (Ok tt, p').
Proof.
  unfold buildMessageListener, try_catch.
  match goal with |- context [match ?m p with _ => _ end] =>
    destruct (m p) as [[[]|e|] p1] eqn:Hrun end.
  - by exists p1.
  - by eexists.
  - exfalso.
    pose proof (app_keeps_buildMessageListener E V eventType data p) as H.
    unfold buildMessageListener, try_catch in H. rewrite Hrun in H.
    by destruct (H _ _ eq_refl) as [_ []].
Qed.

(** X22. Whatever the document holds and whichever outside call throws,
    [mountElement] loses nothing of the page and keeps what holds of it:
    the root of a widget, once made, is never replaced or dropped; every
    root in [roots] was made by [createRoot]; every element is rendered to
    the root that [roots] holds for a widget. *)
Theorem mountElement_keeps_the_page E widgetId element p r p' :
  mountElement E widgetId element p = (r, p') ->
  extends p p' /\ (page_ok p -> page_ok p').
Proof. intros H. by apply app_keeps_mountElement in H as [H _]. Qed.







Lemma mountElement_keeps_the_page_witness :
  let run :=
    mountElement sample_externals (js "root") (VStr (js "hello")) empty_page in
  extends empty_page run.2 /\ (page_ok empty_page -> page_ok run.2).
Proof.
  intros run.
  apply (mountElement_keeps_the_page sample_externals (js "root")
           (VStr (js "hello")) empty_page run.1 run.2).
  apply surjective_pairing.
Defined.


(** ** Which listener handles a message *)

Lemma listener_ignores E V eventType data p :
  is_object data = false
  \/ (nullish data = false /\ is_string (get data (js "type")) eventType = false) ->
  buildMessageListener E V eventType data p = (Ok tt, p).
Proof.
  unfold buildMessageListener, try_catch.
  intros [->|[-> ->]]; [reflexivity|].
  by destruct (is_object data).
Qed.

Lemma is_string_other T T' : T <> T' -> is_string (VStr T) T' = false.
Proof. intros H. cbn. by rewrite bool_decide_eq_false. Qed.

(** X26. The four listeners all receive every message, and exactly one of
    them acts on it: for a message whose [type] is one of the four event
    types, calling the four listeners in order does what the listener of
    that type does alone, and for a message of any other type it does
    nothing. *)
Theorem message_is_handled_by_its_listener E V data T p :
  get data (js "type") = VStr T ->
  dispatch (messageListeners E V) data p
  = if bool_decide (T ∈ eventTypes) then buildMessageListener E V T data p
    else (Ok tt, p).
Proof.
  intros HT.
  assert (Hobj : nullish data = false) by (by destruct data).
  assert (Hskip : forall T' q, T <> T' ->
            buildMessageListener E V T' data q = (Ok tt, q)).
  { intros T' q Hne. apply listener_ignores. right. split; [exact Hobj|].
    rewrite HT. by apply is_string_other. }
  unfold messageListeners. cbn [dispatch].
  destruct (buildMessageListener_returns E V T data p) as [p' Hrun].
  case_bool_decide as Hin.
  - unfold eventTypes in Hin.
    rewrite !elem_of_cons in Hin.
    destruct Hin as [->|[->|[->|[->|Hin]]]]; [| | | |by apply elem_of_nil in Hin];
      unfold bind; rewrite ?Hrun; rewrite ?Hskip by (by vm_compute);
      rewrite ?Hrun; rewrite ?Hskip by (by vm_compute); reflexivity.
  - unfold bind. rewrite !Hskip; [reflexivity|..];
      intros ->; apply Hin; unfold eventTypes; set_solver.
Qed.

(** X27. A message whose data is [null] passes the [typeof] test and fails
    on [event.data.type]: each of the four listeners catches the
    [TypeError] and writes it to the console, and nothing else happens. *)
Theorem null_message_is_reported_by_every_listener E V p :
  dispatch (messageListeners E V) VNull p
  = (Ok tt,
     Page (roots p) (widgets p)
       (effects p ++ replicate 4 (consoleError_event VNull TypeError))).
Proof.
  destruct p as [rt wd ef]. unfold messageListeners. cbn [dispatch].
  unfold bind, buildMessageListener, try_catch, update, record, ret.
  cbn [is_object typeof negb nullish throw roots widgets effects].
  by rewrite <- !app_assoc.
Qed.

(** ** A transpiled source *)

Lemma app_bind_call {X} E e (k : unit -> A X) p :
  (forall e p, throws E e p = None) ->
  bind (call E e) k p = k tt (record e p).
Proof. intros H. unfold call, bind, update, leave. by rewrite H. Qed.

Lemma app_bind_ret {X Y} (x : X) (k : X -> A Y) p : bind (ret x) k p = k x p.
Proof. reflexivity. Qed.

Lemma app_bind_read {X Y} (f : page -> X) (k : X -> A Y) p :
  bind (read f) k p = k (f p) p.
Proof. reflexivity. Qed.


Lemma call_returns E e p :
  (forall e p, throws E e p = None) -> call E e p = (Ok tt, record e p).
Proof. intros H. unfold call, bind, update, leave. by rewrite H. Qed.


(** X29. When the transpiled source of a listed widget arrives, its entry
    keeps its other fields and gets the new [widgetComponent], and no
    source is requested. *)
Theorem transpiled_source_of_listed_widget_updates_its_entry
    E V (d : object) s (o : object) p :
  (forall e p, throws E e p = None) ->
  obj_get d (js "type") = VStr (js "transpiler.sourceTranspiled") ->
  obj_get d (js "source") = VStr s ->
  widgets p !! s = Some (VObj o) ->
  let widget := obj_set o (js "widgetComponent") (obj_get d (js "widgetComponent")) in
  buildMessageListener E V (js "transpiler.sourceTranspiled") (VObj d) p
  = (Ok tt,
     Page (roots p) (<[s := VObj widget]> (widgets p))
       (effects p
        ++ (if negb (truthy (rootWidgetSource V))
               && bool_decide (s = rootWidget V)
            then [setRootWidgetSource (VStr s)] else [])
        ++ [widgetAdded (VObj (obj_spread [(js "source", VStr s)] widget));
            setWidgetUpdates (widgetUpdates V ++ s)])).
Proof.
  intros Hquiet Htype Hsource Hlisted. cbv zeta.
  unfold buildMessageListener, try_catch.
  cbn [is_object typeof negb nullish get]. rewrite Htype.
  cbn [is_string]. rewrite bool_decide_eq_true_2 by reflexivity. cbn [negb].
  rewrite decide_True by reflexivity.
  unfold sourceTranspiled, widgetProxy_get.
  cbn [get]. rewrite Hsource. cbn [to_string is_string].
  rewrite app_bind_read, Hlisted.
  cbn [default from_option id own_entries].
  set (widget := obj_set o _ _).
  assert (Hset : forall q, widgets q = widgets p ->
            widgetProxy_set E s (VObj widget) q
            = (Ok tt, Page (roots q) (<[s := VObj widget]> (widgets q))
                        (effects q))).
  { intros q Hq. unfold widgetProxy_set. rewrite app_bind_read, Hq, Hlisted.
    cbn [default from_option id truthy negb].
    destruct q as [rt wd ef]. cbn in Hq. subst wd. reflexivity. }
  destruct (negb (truthy (rootWidgetSource V)) && bool_decide (s = rootWidget V)).
  - rewrite !app_bind_call by exact Hquiet. rewrite Hset by (by destruct p).
    destruct p as [rt wd ef]. cbn [record roots widgets effects].
    by rewrite <- !app_assoc.
  - rewrite app_bind_ret. rewrite !app_bind_call by exact Hquiet.
    rewrite Hset by (by destruct p).
    destruct p as [rt wd ef]. cbn [record roots widgets effects].
    by rewrite <- !app_assoc.
Qed.

(** ** A widget without a node *)

Lemma first_segment_buildComponentId instanceId src parent :
  sep_free src = true ->
  first_segment (buildComponentId instanceId (VStr src) parent) = src.
Proof.
  intros Hsrc. unfold first_segment, buildComponentId.
  cbn [join join_element nullish to_string].
  change (js "##" ++ ?r) with (HASH :: HASH :: r).
  by rewrite split_sep_app.
Qed.

(** X30. A widget whose id [buildComponentId] made from a source path
    without [##], and for which the document has no node, is not mounted:
    [mountElement] reports the source path (the id up to its first [##])
    to the monitor, writes the missing node to the console, makes no root
    and renders nothing. *)
Theorem missing_node_is_reported_under_the_source_path
    E instanceId src parent element p :
  (forall e p, throws E e p = None) ->
  sep_free src = true ->
  let widgetId := buildComponentId instanceId (VStr src) parent in
  roots p !! widgetId = None ->
  getElementById E p (getAppDomId E widgetId) = None ->
  mountElement E widgetId element p
  = (Ok tt,
     Page (roots p) (widgets p)
       (effects p
        ++ [missingWidgetReferenced src;
            consoleError (js "Node not found: #" ++ getAppDomId E widgetId)])).
Proof.
  intros Hquiet Hsrc widgetId Hroot Hnode. unfold mountElement.
  rewrite app_bind_read, Hroot.
  unfold bind at 1. rewrite app_bind_read, Hnode.
  rewrite app_bind_call by exact Hquiet.
  subst widgetId. rewrite first_segment_buildComponentId by exact Hsrc.
  destruct p as [rt wd ef]. unfold bind, update, ret, record, node_not_found.
  cbn [roots widgets effects]. by rewrite <- app_assoc.
Qed.

Lemma message_is_handled_by_its_listener_witness :
  dispatch (messageListeners sample_externals sample_view) invocation_message
    empty_page
  = if bool_decide (js "widget.callbackInvocation" ∈ eventTypes) then
      buildMessageListener sample_externals sample_view
        (js "widget.callbackInvocation") invocation_message empty_page
    else (Ok tt, empty_page).
Proof.
  apply message_is_handled_by_its_listener. reflexivity.
Defined.


Lemma transpiled_source_of_listed_widget_updates_its_entry_witness :
  let listed :=
    Page ∅ {[js "a/Root" := VObj [(js "isTrusted", VBool false)]]} [] in
  let widget :=
    obj_set [(js "isTrusted", VBool false)] (js "widgetComponent")
      (obj_get transpiled_root (js "widgetComponent")) in
  buildMessageListener sample_externals sample_view
    (js "transpiler.sourceTranspiled") (VObj transpiled_root) listed
  = (Ok tt,
     Page (roots listed) (<[js "a/Root" := VObj widget]> (widgets listed))
       (effects listed
        ++ (if negb (truthy (rootWidgetSource sample_view))
               && bool_decide (js "a/Root" = rootWidget sample_view)
            then [setRootWidgetSource (VStr (js "a/Root"))] else [])
        ++ [widgetAdded
              (VObj (obj_spread [(js "source", VStr (js "a/Root"))] widget));
            setWidgetUpdates (widgetUpdates sample_view ++ js "a/Root")])).
Proof.
  intros listed widget.
  apply (transpiled_source_of_listed_widget_updates_its_entry
           sample_externals sample_view transpiled_root (js "a/Root")
           [(js "isTrusted", VBool false)] listed).
  - reflexivity.
  - reflexivity.
  - reflexivity.
  - apply lookup_singleton_eq.
Defined.

Lemma missing_node_is_reported_under_the_source_path_witness :
  let widgetId :=
    buildComponentId (VStr (js "x")) (VStr (js "a/Child")) (js "p") in
  mountElement sample_externals widgetId (VStr (js "hello")) empty_page
  = (Ok tt,
     Page (roots empty_page) (widgets empty_page)
       (effects empty_page
        ++ [missingWidgetReferenced (js "a/Child");
            consoleError
              (js "Node not found: #"
               ++ getAppDomId sample_externals widgetId)])).
Proof.
  intros widgetId.
  apply (missing_node_is_reported_under_the_source_path sample_externals
           (VStr (js "x")) (js "a/Child") (js "p") (VStr (js "hello"))
           empty_page).
  - reflexivity.
  - reflexivity.
  - apply lookup_empty.
  - reflexivity.
Defined.

End app.
